(** * Study-group bot (src/bot.py): roster, deadline workflow, scheduler

    A shallow embedding of the handlers of [bot.py] and of the part of the
    chat library that routes updates to them.

    - The SQLite file is a record of four tables ([Store]); a connection is
      a working copy that [commit] writes back, so statements that were not
      committed when a handler gives up leave no trace.
    - A Python [dict] keyed by user id is an association list in insertion
      order (re-assigning a key keeps its position).
    - Handlers run in a small state-and-exception monad [Bot] over a
      [World]: the store, the per-user scratch dictionary, the conversation
      state, the job queue and the list of chat actions performed so far.
    - What the outside world answers to one request (clock, whether a
      connection can be opened, what the chat platform returns) is an [Env].
    - Chat texts are constructors of [Text]; each carries the values that
      the f-string of the source interpolates. *)

From Stdlib Require Import ZArith List String Ascii Bool Lia Permutation.
Import ListNotations.
Open Scope string_scope.
Open Scope list_scope.
Open Scope Z_scope.

(** ** Configuration constants *)

Module Config.

Definition WAITING_FOR_FILE : Z := 1.

(** [ConversationHandler.END] of the chat library. *)
Definition END : Z := -1.

Definition MEMBERS : list (Z * string) :=
  [ (1387393147, "Vamsee");
    (8095569186, "Umesh");
    (6931175630, "Chetan");
    (6544711761, "Yashwanth");
    (5477604530, "Karthik");
    (6643208192, "Sanjith");
    (5801384729, "Raghunandan");
    (103419413, "Pavan") ].

Definition ADMINS : list Z :=
  [ 1387393147; 8095569186; 6643208192 ].

End Config.
Import Config.

(** ** Python dictionaries keyed by user id *)

Module Dict.

Definition t := list (Z * string).

(** [d[k] = v]: an existing key keeps its place, a new one goes last. *)
Fixpoint set (d : t) (k : Z) (v : string) : t :=
  match d with
  | [] => [(k, v)]
  | (k', v') :: d' =>
      if k' =? k then (k, v) :: d' else (k', v') :: set d' k v
  end.

Fixpoint get (d : t) (k : Z) : option string :=
  match d with
  | [] => None
  | (k', v') :: d' => if k' =? k then Some v' else get d' k
  end.

(** [for k, v in rows: d[k] = v] *)
Definition update (d : t) (rows : list (Z * string)) : t :=
  fold_left (fun acc kv => set acc (fst kv) (snd kv)) rows d.

Definition keys (d : t) : list Z := map fst d.

End Dict.

(** ** The persistent store *)

Record DeadlineRow := mkDeadline {
  deadline_id : Z;
  title : string;
  message_id : Z;
  chat_id : Z;
  file_id : string;
  created_at : Z
}.

Record ScheduleRow := mkSchedule {
  schedule_id : Z;
  run_time : Z;
  message : string
}.

(** Rows are kept in rowid order.  [deadline_seq] and [schedule_seq] are the
    AUTOINCREMENT counters (largest id handed out so far). *)
Record Store := mkStore {
  members : list (Z * string);
  deadlines : list DeadlineRow;
  completions : list (Z * Z);
  schedules : list ScheduleRow;
  deadline_seq : Z;
  schedule_seq : Z
}.

Definition empty_store : Store := mkStore [] [] [] [] 0 0.

Module Sql.

(** INSERT OR IGNORE INTO members ...; UPDATE members SET first_name ... *)
Fixpoint upsert_rows (rows : list (Z * string)) (uid : Z) (name : string)
  : list (Z * string) :=
  match rows with
  | [] => [(uid, name)]
  | (k, v) :: rest =>
      if k =? uid then (k, name) :: rest
      else (k, v) :: upsert_rows rest uid name
  end.

Definition upsert_member (st : Store) (uid : Z) (name : string) : Store :=
  mkStore (upsert_rows (members st) uid name) (deadlines st)
          (completions st) (schedules st) (deadline_seq st) (schedule_seq st).

(** INSERT INTO deadlines (title, message_id, chat_id, file_id); the result
    carries [cursor.lastrowid]. *)
Definition insert_deadline (st : Store) (ttl : string) (mid chat : Z)
  (fid : string) (now : Z) : Store * Z :=
  let new_id := deadline_seq st + 1 in
  (mkStore (members st)
           (deadlines st ++ [mkDeadline new_id ttl mid chat fid now])
           (completions st) (schedules st) new_id (schedule_seq st),
   new_id).

(** UPDATE deadlines SET message_id = ? WHERE deadline_id = ? *)
Definition update_message_id (st : Store) (did mid : Z) : Store :=
  mkStore (members st)
          (map (fun d => if deadline_id d =? did
                         then mkDeadline (deadline_id d) (title d) mid
                                (chat_id d) (file_id d) (created_at d)
                         else d) (deadlines st))
          (completions st) (schedules st) (deadline_seq st) (schedule_seq st).

Definition same_pair (did uid : Z) (row : Z * Z) : bool :=
  (fst row =? did) && (snd row =? uid).

(** SELECT * FROM completions WHERE deadline_id = ? AND user_id = ?,
    then [fetchone()] tested for truth. *)
Definition has_completion (st : Store) (did uid : Z) : bool :=
  existsb (same_pair did uid) (completions st).

(** INSERT INTO completions (deadline_id, user_id); the composite primary
    key refuses a second row for the pair. *)
Definition insert_completion (st : Store) (did uid : Z) : option Store :=
  if has_completion st did uid then None
  else Some (mkStore (members st) (deadlines st)
               (completions st ++ [(did, uid)]) (schedules st)
               (deadline_seq st) (schedule_seq st)).

Definition rows_of_deadline (st : Store) (did : Z) : list (Z * Z) :=
  filter (fun row => fst row =? did) (completions st).

(** SELECT COUNT( * ) FROM completions WHERE deadline_id = ? *)
Definition count_completions (st : Store) (did : Z) : Z :=
  Z.of_nat (List.length (rows_of_deadline st did)).

(** SELECT user_id FROM completions WHERE deadline_id = ? *)
Definition completed_users (st : Store) (did : Z) : list Z :=
  map snd (rows_of_deadline st did).

(** SELECT title FROM deadlines WHERE deadline_id = ?, then [fetchone()]. *)
Definition select_title (st : Store) (did : Z) : option string :=
  option_map title (find (fun d => deadline_id d =? did) (deadlines st)).

(** SELECT COUNT( * ) FROM deadlines *)
Definition count_deadlines (st : Store) : Z :=
  Z.of_nat (List.length (deadlines st)).

(** ORDER BY created_at DESC LIMIT 1 over a scan in rowid order: a later
    row replaces the candidate only when it is strictly newer. *)
Fixpoint newest (best : DeadlineRow) (rows : list DeadlineRow) : DeadlineRow :=
  match rows with
  | [] => best
  | d :: rest =>
      if created_at best <? created_at d then newest d rest
      else newest best rest
  end.

Definition latest_deadline (st : Store) : option DeadlineRow :=
  match deadlines st with
  | [] => None
  | d :: rest => Some (newest d rest)
  end.

(** ORDER BY created_at DESC, rows of equal time in scan order. *)
Fixpoint insert_desc (d : DeadlineRow) (sorted : list DeadlineRow)
  : list DeadlineRow :=
  match sorted with
  | [] => [d]
  | x :: rest =>
      if created_at x <? created_at d then d :: x :: rest
      else x :: insert_desc d rest
  end.

Definition order_by_created_desc (rows : list DeadlineRow) : list DeadlineRow :=
  fold_left (fun acc d => insert_desc d acc) rows [].

(** The LEFT JOIN ... GROUP BY d.deadline_id query of [deadline_status]. *)
Definition status_rows (st : Store) : list (DeadlineRow * Z) :=
  map (fun d => (d, count_completions st (deadline_id d)))
      (order_by_created_desc (deadlines st)).

(** INSERT INTO schedules (run_time, message) *)
Definition insert_schedule (st : Store) (t : Z) (msg : string) : Store * Z :=
  let new_id := schedule_seq st + 1 in
  (mkStore (members st) (deadlines st) (completions st)
           (schedules st ++ [mkSchedule new_id t msg])
           (deadline_seq st) new_id,
   new_id).

(** DELETE FROM schedules WHERE schedule_id = ? *)
Definition delete_schedule (st : Store) (sid : Z) : Store :=
  mkStore (members st) (deadlines st) (completions st)
          (filter (fun s => negb (schedule_id s =? sid)) (schedules st))
          (deadline_seq st) (schedule_seq st).

End Sql.

(** ** Updates, the environment of one request, chat actions *)

Inductive ChatType := Private | Group | Supergroup | Channel.

(** [chat_member.status] *)
Inductive MemberStatus :=
  Creator | Administrator | Member | Restricted | LeftChat | Kicked.

Record Message := mkMessage {
  command : option string;   (* ["deadline"] for a text that starts with /deadline *)
  args : list string;        (* [context.args] *)
  document : option string;  (* file id *)
  photo : list string;       (* file ids of the sizes offered, in order *)
  video : option string      (* file id *)
}.

(** Callback data: [complete_<digits>], or anything else. *)
Inductive CallbackData := Complete (did : Z) | OtherData.

Inductive Payload := OfMessage (m : Message) | OfCallback (c : CallbackData).

Record Update := mkUpdate {
  effective_chat_id : Z;
  chat_type : ChatType;
  effective_user_id : Z;
  first_name : string;
  is_bot : bool;
  get_member : option MemberStatus;  (* [None]: the lookup raised *)
  payload : Payload
}.

(** What the outside world answers while one update (or one job) is
    handled. *)
Record Env := mkEnv {
  now : Z;                         (* CURRENT_TIMESTAMP, [datetime.now()] *)
  strptime : string -> option Z;   (* ["%Y-%m-%d %H:%M"]; [None]: ValueError *)
  members_ok : bool;               (* the members query of the roster *)
  db_ok : bool;                    (* the first connection a handler opens *)
  db_again_ok : bool;              (* the second one, where there is one *)
  send_result : option Z;          (* id of the message sent; [None]: raised *)
  edit_ok : bool;                  (* [edit_message_caption] *)
  delete_ok : bool                 (* [update.message.delete()] *)
}.

Inductive FileKind := Document | Photo | Video.

Definition Mentions := list (Z * string).

Inductive Text :=
| Welcome
| Help
| OnlyInGroups
| OnlyAdmins (cmd : string)
| NoMembersYet
| Notification (message_text : string) (mention_text : Mentions)
| MentionAll (mention_text : Mentions)
| GroupStatistics (member_count deadline_count : Z)
                  (latest : option (string * Z))
| CreatingDeadline (ttl : string)
| DeadlineUsage
| RetryFile
| DeadlinePosted
| ErrorPosting
| NoDeadlines
| DeadlineStatus (lines : list (string * Z * Z))
| EveryoneCompleted (ttl : string)
| Reminder (ttl : string) (pending_count : Z) (mention_text : Mentions)
| ErrorText
| Cancelled
| ScheduleUsage
| MustBeFuture
| ReminderScheduled (date_str time_str msg : string)
| InvalidDateTime
| ScheduledReminder (msg : string) (mention_text : Mentions).

Inductive Alert :=
| NoAlert
| AlreadyCompleted
| MarkedCompleted (completed_count total_members : Z)
| ErrorRecording.

Inductive Action :=
| ReplyText (t : Text)
| SendFile (kind : FileKind) (chat : Z) (fid : string) (ttl : string)
           (button_deadline : Z)
| EditCaption (ttl : string) (completed_count total_members : Z)
              (button_deadline : Z)
| Answer (a : Alert)
| SendMessage (chat : Z) (t : Text)
| DeleteMessage.

Record Job := mkJob {
  job_when : Z;
  job_schedule_id : Z;
  job_message : string;
  job_chat_id : Z
}.

Record World := mkWorld {
  db : Store;
  user_data : option string;   (* [context.user_data] at key deadline_title *)
  conversation : option Z;     (* state of the /deadline conversation *)
  jobs : list Job;
  outbox : list Action
}.

(** ** The handler monad *)

Inductive Exn := DbError | ApiError | ValueError | TypeError | IntegrityError.

Inductive Res (A : Type) := Ok (a : A) | Raise (e : Exn).
Arguments Ok {A} a.
Arguments Raise {A} e.

Definition Bot (A : Type) : Type := World -> Res A * World.

Definition ret {A} (a : A) : Bot A := fun w => (Ok a, w).

Definition bind {A B} (m : Bot A) (k : A -> Bot B) : Bot B :=
  fun w => match m w with
           | (Ok a, w') => k a w'
           | (Raise e, w') => (Raise e, w')
           end.

Definition raise {A} (e : Exn) : Bot A := fun w => (Raise e, w).

Definition try_except {A} (body : Bot A) (handler : Exn -> Bot A) : Bot A :=
  fun w => match body w with
           | (Ok a, w') => (Ok a, w')
           | (Raise e, w') => handler e w'
           end.

Notation "x <- m ;; k" := (bind m (fun x => k))
  (at level 61, m at next level, right associativity).
Notation "m ;; k" := (bind m (fun _ => k))
  (at level 61, right associativity).

Definition run {A} (m : Bot A) (w : World) : World := snd (m w).

Definition of_option {A} (e : Exn) (o : option A) : Bot A :=
  match o with Some a => ret a | None => raise e end.

(** A value computed from the committed store. *)
Definition reading {A} (f : Store -> A) : Bot A := fun w => (Ok (f (db w)), w).

Definition emit (a : Action) : Bot unit :=
  fun w => (Ok tt, mkWorld (db w) (user_data w) (conversation w) (jobs w)
                           (outbox w ++ [a])).

Definition reply_text (t : Text) : Bot unit := emit (ReplyText t).

Definition answer (a : Alert) : Bot unit := emit (Answer a).

(** [sqlite3.connect]: the connection starts from the committed store. *)
Definition connect (ok : bool) : Bot Store :=
  fun w => if ok then (Ok (db w), w) else (Raise DbError, w).

Definition commit (conn : Store) : Bot unit :=
  fun w => (Ok tt, mkWorld conn (user_data w) (conversation w) (jobs w)
                           (outbox w)).

Definition set_user_data (v : option string) : Bot unit :=
  fun w => (Ok tt, mkWorld (db w) v (conversation w) (jobs w) (outbox w)).

Definition get_user_data : Bot (option string) :=
  fun w => (Ok (user_data w), w).

Definition run_once (j : Job) : Bot unit :=
  fun w => (Ok tt, mkWorld (db w) (user_data w) (conversation w)
                           (jobs w ++ [j]) (outbox w)).

(** ** Helper functions *)

Definition is_admin (u : Update) : bool :=
  match get_member u with
  | Some Creator | Some Administrator => true
  | _ => false
  end.

Definition fetch_members (env : Env) (st : Store)
  : option (list (Z * string)) :=
  if members_ok env then Some (members st) else None.

Definition get_all_member_ids (env : Env) (st : Store) : list (Z * string) :=
  let members_set := Dict.update [] MEMBERS in
  match fetch_members env st with
  | Some db_members => Dict.update members_set db_members
  | None => members_set
  end.

Definition get_member_count (env : Env) (st : Store) : Z :=
  Z.of_nat (List.length (get_all_member_ids env st)).

Definition get_deadline_count (env : Env) (st : Store) : Z :=
  if db_ok env then Sql.count_deadlines st else 0.

Definition get_latest_deadline (env : Env) (st : Store) : option DeadlineRow :=
  if db_ok env then Sql.latest_deadline st else None.

Definition in_group (u : Update) : bool :=
  match chat_type u with
  | Group | Supergroup => true
  | _ => false
  end.

Definition join (words : list string) : string := String.concat " " words.

Definition lower_ascii (c : ascii) : ascii :=
  let n := nat_of_ascii c in
  if (Nat.leb 65 n && Nat.leb n 90)%bool then ascii_of_nat (n + 32) else c.

Fixpoint lower (s : string) : string :=
  match s with
  | EmptyString => EmptyString
  | String c rest => String (lower_ascii c) (lower rest)
  end.

(** ** Auto-registration *)

Definition auto_register_member (env : Env) (u : Update) : Bot (option Z) :=
  if negb (in_group u) then ret None
  else if is_bot u then ret None
  else
    let user_id := effective_user_id u in
    let name := if String.eqb (first_name u) "" then "User" else first_name u in
    try_except
      (conn <- connect (db_ok env) ;;
       commit (Sql.upsert_member conn user_id name) ;;
       ret None)
      (fun _ => ret None).

(** ** Command handlers *)

Definition start : Bot (option Z) := reply_text Welcome ;; ret None.

Definition help_command : Bot (option Z) := reply_text Help ;; ret None.

Definition delete_message (env : Env) : Bot unit :=
  if delete_ok env then emit DeleteMessage else ret tt.

Definition mention_command (env : Env) (u : Update) (m : Message)
  : Bot (option Z) :=
  if negb (in_group u) then reply_text OnlyInGroups ;; ret None
  else if negb (is_admin u) then reply_text (OnlyAdmins "/mention") ;; ret None
  else
    members <- reading (get_all_member_ids env) ;;
    match members with
    | [] => reply_text NoMembersYet ;; ret None
    | _ :: _ =>
        let mention_text := members in
        let message_text :=
          match args m with [] => None | _ :: _ => Some (join (args m)) end in
        match message_text with
        | Some (String c rest) =>
            reply_text (Notification (String c rest) mention_text)
        | _ => reply_text (MentionAll mention_text)
        end ;;
        delete_message env ;;
        ret None
    end.

Definition status_command (env : Env) (u : Update) : Bot (option Z) :=
  if negb (is_admin u) then reply_text (OnlyAdmins "/status") ;; ret None
  else
    member_count <- reading (get_member_count env) ;;
    deadline_count <- reading (get_deadline_count env) ;;
    latest <- reading (get_latest_deadline env) ;;
    reply_text (GroupStatistics member_count deadline_count
                  (option_map (fun d => (title d, created_at d)) latest)) ;;
    ret None.

(** ** The deadline workflow *)

Definition deadline_status (env : Env) : Bot unit :=
  try_except
    (conn <- connect (db_ok env) ;;
     let rows := Sql.status_rows conn in
     match rows with
     | [] => reply_text NoDeadlines
     | _ :: _ =>
         total_members <- reading (get_member_count env) ;;
         reply_text
           (DeadlineStatus
              (map (fun r => (title (fst r), snd r, total_members - snd r))
                   rows))
     end)
    (fun _ => reply_text ErrorText).

Definition is_pending (completed_users : list Z) (member : Z * string) : bool :=
  negb (existsb (Z.eqb (fst member)) completed_users).

Definition deadline_remind (env : Env) : Bot unit :=
  try_except
    (latest <- reading (get_latest_deadline env) ;;
     match latest with
     | None => reply_text NoDeadlines
     | Some d =>
         all_members <- reading (get_all_member_ids env) ;;
         conn <- connect (db_again_ok env) ;;
         let completed_users := Sql.completed_users conn (deadline_id d) in
         let mention_text := filter (is_pending completed_users) all_members in
         let pending_count := Z.of_nat (List.length mention_text) in
         if pending_count =? 0
         then reply_text (EveryoneCompleted (title d))
         else reply_text (Reminder (title d) pending_count mention_text)
     end)
    (fun _ => reply_text ErrorText).

Definition deadline_command (env : Env) (u : Update) (m : Message)
  : Bot (option Z) :=
  if negb (is_admin u) then reply_text (OnlyAdmins "/deadline") ;; ret None
  else
    match args m with
    | [] => reply_text DeadlineUsage ;; ret (Some END)
    | first :: _ =>
        let subcommand := lower first in
        if String.eqb subcommand "status" then deadline_status env ;; ret None
        else if String.eqb subcommand "remind" then
          deadline_remind env ;; ret None
        else
          let ttl := join (args m) in
          set_user_data (Some ttl) ;;
          reply_text (CreatingDeadline ttl) ;;
          ret (Some WAITING_FOR_FILE)
    end.

(** The document, else the last photo size, else the video. *)
Definition attached_file (m : Message) : option (FileKind * string) :=
  match document m with
  | Some fid => Some (Document, fid)
  | None =>
      match photo m with
      | _ :: _ => Some (Photo, last (photo m) "")
      | [] =>
          match video m with
          | Some fid => Some (Video, fid)
          | None => None
          end
      end
  end.

(** [send_document] / [send_photo] / [send_video] with the completion
    button; the result is [sent_message.message_id]. *)
Definition send_file (env : Env) (kind : FileKind) (chat : Z) (fid ttl : string)
  (did : Z) : Bot Z :=
  match send_result env with
  | Some mid => emit (SendFile kind chat fid ttl did) ;; ret mid
  | None => raise ApiError
  end.

Definition deadline_receive_file (env : Env) (u : Update) (m : Message)
  : Bot (option Z) :=
  scratch <- get_user_data ;;
  let ttl := match scratch with Some t => t | None => "Study Material" end in
  match attached_file m with
  | None => reply_text RetryFile ;; ret (Some WAITING_FOR_FILE)
  | Some (kind, fid) =>
      try_except
        (conn <- connect (db_ok env) ;;
         let inserted :=
           Sql.insert_deadline conn ttl 0 (effective_chat_id u) fid (now env) in
         let did := snd inserted in
         commit (fst inserted) ;;
         sent_message_id <- send_file env kind (effective_chat_id u) fid ttl did ;;
         conn2 <- connect (db_again_ok env) ;;
         commit (Sql.update_message_id conn2 did sent_message_id) ;;
         reply_text DeadlinePosted ;;
         set_user_data None ;;
         ret (Some END))
        (fun _ => reply_text ErrorPosting ;; ret (Some END))
  end.

Definition edit_message_caption (env : Env) (ttl : string)
  (completed_count total_members did : Z) : Bot unit :=
  if edit_ok env then emit (EditCaption ttl completed_count total_members did)
  else ret tt.

Definition completion_callback (env : Env) (u : Update) (did : Z)
  : Bot (option Z) :=
  answer NoAlert ;;
  let user_id := effective_user_id u in
  try_except
    (conn <- connect (db_ok env) ;;
     if Sql.has_completion conn did user_id
     then answer AlreadyCompleted ;; ret None
     else
       conn' <- of_option IntegrityError
                  (Sql.insert_completion conn did user_id) ;;
       let completed_count := Sql.count_completions conn' did in
       total_members <- reading (get_member_count env) ;;
       ttl <- of_option TypeError (Sql.select_title conn' did) ;;
       commit conn' ;;
       edit_message_caption env ttl completed_count total_members did ;;
       answer (MarkedCompleted completed_count total_members) ;;
       ret None)
    (fun _ => answer ErrorRecording ;; ret None).

Definition cancel_deadline : Bot (option Z) :=
  set_user_data None ;;
  reply_text Cancelled ;;
  ret (Some END).

(** ** Scheduling *)

Definition send_message (env : Env) (chat : Z) (t : Text) : Bot unit :=
  match send_result env with
  | Some _ => emit (SendMessage chat t)
  | None => raise ApiError
  end.

Definition schedule_command (env : Env) (u : Update) (m : Message)
  : Bot (option Z) :=
  if negb (is_admin u) then reply_text (OnlyAdmins "/schedule") ;; ret None
  else
    match args m with
    | date_str :: time_str :: word :: words =>
        try_except
          (let msg := join (word :: words) in
           let datetime_str := (date_str ++ " " ++ time_str)%string in
           scheduled_time <- of_option ValueError (strptime env datetime_str) ;;
           if scheduled_time <=? now env
           then reply_text MustBeFuture ;; ret None
           else
             conn <- connect (db_ok env) ;;
             let inserted := Sql.insert_schedule conn scheduled_time msg in
             commit (fst inserted) ;;
             run_once (mkJob scheduled_time (snd inserted) msg
                             (effective_chat_id u)) ;;
             reply_text (ReminderScheduled date_str time_str msg) ;;
             ret None)
          (fun e =>
             match e with
             | ValueError => reply_text InvalidDateTime ;; ret None
             | _ => reply_text ErrorText ;; ret None
             end)
    | _ => reply_text ScheduleUsage ;; ret None
    end.

Definition send_scheduled_message (env : Env) (j : Job) : Bot unit :=
  try_except
    (members <- reading (get_all_member_ids env) ;;
     let mention_text := members in
     send_message env (job_chat_id j)
       (ScheduledReminder (job_message j) mention_text) ;;
     conn <- connect (db_ok env) ;;
     commit (Sql.delete_schedule conn (job_schedule_id j)))
    (fun _ => ret tt).

(** The job queue runs a [run_once] job a single time: the job leaves the
    queue and its callback is called. *)
Definition fire (env : Env) (j : Job) : Bot unit :=
  fun w =>
    send_scheduled_message env j
      (mkWorld (db w) (user_data w) (conversation w)
         (filter (fun k => negb (job_schedule_id k =? job_schedule_id j))
                 (jobs w))
         (outbox w)).

(** ** Routing of updates (the handlers registered in [main]) *)

Definition is_command (m : Message) (name : string) : bool :=
  match command m with
  | Some c => String.eqb c name
  | None => false
  end.

(** [filters.Document.ALL | filters.PHOTO | filters.VIDEO] *)
Definition file_filter (m : Message) : bool :=
  match document m, photo m, video m with
  | None, [], None => false
  | _, _, _ => true
  end.

(** The conversation handler's choice of a callback: the entry point when
    no conversation is active for the key, else the handlers of the current
    state, else the fallbacks. *)
Definition conversation_handler (env : Env) (u : Update) (m : Message)
  (state : option Z) : option (Bot (option Z)) :=
  match state with
  | None =>
      if is_command m "deadline" then Some (deadline_command env u m)
      else None
  | Some s =>
      if (s =? WAITING_FOR_FILE) && file_filter m
      then Some (deadline_receive_file env u m)
      else if is_command m "cancel" then Some cancel_deadline
      else None
  end.

(** What the conversation handler does with the value a callback returns. *)
Definition update_state (new_state : option Z) (state : option Z) : option Z :=
  match new_state with
  | None => state
  | Some s => if s =? END then None else Some s
  end.

Definition set_conversation (state : option Z) (w : World) : World :=
  mkWorld (db w) (user_data w) state (jobs w) (outbox w).

Definition in_conversation (h : Bot (option Z)) (w : World) : World :=
  match h w with
  | (Ok new_state, w') =>
      set_conversation (update_state new_state (conversation w')) w'
  | (Raise _, w') => w'
  end.

(** One update handled by the first handler that accepts it. *)
Definition process_update (env : Env) (u : Update) (w : World) : World :=
  match payload u with
  | OfMessage m =>
      if is_command m "start" then run start w
      else if is_command m "help" then run help_command w
      else if is_command m "mention" then run (mention_command env u m) w
      else if is_command m "tagall" then run (mention_command env u m) w
      else if is_command m "status" then run (status_command env u) w
      else if is_command m "schedule" then run (schedule_command env u m) w
      else
        match conversation_handler env u m (conversation w) with
        | Some h => in_conversation h w
        | None => run (auto_register_member env u) w
        end
  | OfCallback (Complete did) => run (completion_callback env u did) w
  | OfCallback OtherData => w
  end.

(** A run of the bot: updates in arrival order, each with its environment. *)
Definition process_all (events : list (Env * Update)) (w : World) : World :=
  fold_left (fun acc ev => process_update (fst ev) (snd ev) acc) events w.

Definition initial_world : World := mkWorld empty_store None None [] [].

(** ** What the specification says of the roster *)

(** The name the members table gives to [uid]: with several rows for one
    id, the one read last. *)
Fixpoint table_name (rows : list (Z * string)) (uid : Z) : option string :=
  match rows with
  | [] => None
  | (k, v) :: rest =>
      match table_name rest uid with
      | Some name => Some name
      | None => if k =? uid then Some v else None
      end
  end.

(** The seed list overlaid with the table, the table winning. *)
Definition roster_spec (rows : list (Z * string)) (uid : Z) : option string :=
  match table_name rows uid with
  | Some name => Some name
  | None => Dict.get MEMBERS uid
  end.

(** ** Vocabulary of the statements *)

Definition mention_reply (m : Message) (roster : Mentions) : Text :=
  match args m with
  | [] => MentionAll roster
  | _ :: _ =>
      match join (args m) with
      | EmptyString => MentionAll roster
      | String c rest => Notification (String c rest) roster
      end
  end.

Definition after_delete (env : Env) : list Action :=
  if delete_ok env then [DeleteMessage] else [].

(** The world after a handler that only talked. *)
Definition said (w : World) (acts : list Action) : World :=
  mkWorld (db w) (user_data w) (conversation w) (jobs w) (outbox w ++ acts).

(** The store once [(did, uid)] is recorded. *)
Definition recorded (st : Store) (did uid : Z) : Store :=
  mkStore (members st) (deadlines st) (completions st ++ [(did, uid)])
          (schedules st) (deadline_seq st) (schedule_seq st).

Definition caption_edit (env : Env) (ttl : string) (c t did : Z) : list Action :=
  if edit_ok env then [EditCaption ttl c t did] else [].

(** Rows stored for the pair [(did, uid)]. *)
Definition pair_count (st : Store) (did uid : Z) : nat :=
  List.length (filter (Sql.same_pair did uid) (completions st)).

(** A completion signal of user [uid] for deadline [did]. *)
Definition is_signal (did uid : Z) (u : Update) : Prop :=
  effective_user_id u = uid /\ payload u = OfCallback (Complete did).

Definition remind_text (d : DeadlineRow) (pending : Mentions) : Text :=
  match pending with
  | [] => EveryoneCompleted (title d)
  | _ :: _ => Reminder (title d) (Z.of_nat (List.length pending)) pending
  end.

Definition other_schedule (sid : Z) (s : ScheduleRow) : bool :=
  negb (schedule_id s =? sid).

Definition other_job (j k : Job) : bool :=
  negb (job_schedule_id k =? job_schedule_id j).

Definition scratch_title (w : World) : string :=
  match user_data w with
  | Some t => t
  | None => "Study Material"
  end.

(** The store once the deadline is inserted with the placeholder id 0. *)
Definition posted_unpatched (env : Env) (u : Update) (fid : string) (w : World)
  : Store :=
  fst (Sql.insert_deadline (db w) (scratch_title w) 0 (effective_chat_id u)
         fid (now env)).


(** ** Sample stores, updates and environments *)

Definition env_up : Env :=
  mkEnv 1000 (fun _ => Some 2000) true true true (Some 77) true true.

Definition env_members_down : Env :=
  mkEnv 1000 (fun _ => Some 2000) false true true (Some 77) true true.

Definition store_two_members : Store :=
  mkStore [(103419413, "Pavan K"); (42, "Bob")] [] [] [] 0 0.

Definition admin_tagall : Update :=
  mkUpdate 5 Supergroup 1387393147 "Vamsee" false (Some Creator)
    (OfMessage (mkMessage (Some "tagall") [] None [] None)).

Definition member_update (uid : Z) (name : string) (p : Payload) : Update :=
  mkUpdate 5 Group uid name false (Some Member) p.

Definition store_posted : Store :=
  mkStore [(42, "Bob")] [mkDeadline 1 "HW1" 77 5 "F1" 900] [] [] 1 0.

Definition world_posted : World := mkWorld store_posted None None [] [].

Definition three_signals : list (Env * Update) :=
  [ (env_up, member_update 42 "Bob" (OfCallback (Complete 1)));
    (env_members_down, member_update 42 "Bob" (OfCallback (Complete 1)));
    (env_up, member_update 42 "Bob" (OfCallback (Complete 1))) ].

Definition store_one_done : Store :=
  mkStore [] [mkDeadline 1 "HW1" 77 5 "F1" 900; mkDeadline 2 "HW2" 78 5 "F2" 950]
          [(2, 1387393147); (1, 8095569186)] [] 2 0.

Definition world_one_done : World := mkWorld store_one_done None None [] [].

Definition env_late : Env :=
  mkEnv 3000 (fun _ => Some 2000) true true true (Some 77) true true.

Definition env_send_fails : Env :=
  mkEnv 2000 (fun _ => Some 2000) true true true None true true.

Definition schedule_message : Message :=
  mkMessage (Some "schedule") ["2026-02-15"; "09:00"; "Class"; "today"]
            None [] None.

Definition admin_update (p : Payload) : Update :=
  mkUpdate 5 Group 1387393147 "Vamsee" false (Some Administrator) p.

Definition admin_schedule : Update := admin_update (OfMessage schedule_message).

Definition world_scheduled : World :=
  run (schedule_command env_up admin_schedule schedule_message) initial_world.

Definition awaiting_world : World :=
  mkWorld store_posted (Some "Essay") (Some WAITING_FOR_FILE) [] [].


Definition essay_command : Message :=
  mkMessage (Some "deadline") ["Essay"] None [] None.

Definition text_message : Message := mkMessage None [] None [] None.

Definition document_message : Message :=
  mkMessage None [] (Some "F1") [] None.

Definition after_essay_command : World :=
  process_update env_up (admin_update (OfMessage essay_command)) initial_world.

Definition after_text : World :=
  process_update env_up (admin_update (OfMessage text_message))
    after_essay_command.

Definition after_document : World :=
  process_update env_up (admin_update (OfMessage document_message)) after_text.

Definition outsider_deadline : Update :=
  mkUpdate 5 Group 42 "Bob" false (Some Member) (OfMessage essay_command).

(** ** Keys of the store and the writes a request can make *)

(** The uniqueness constraints of the schema: the primary keys of the four
    tables, and AUTOINCREMENT ids never above their counter. *)
Definition keys_ok (st : Store) : Prop :=
  NoDup (map fst (members st)) /\
  NoDup (map deadline_id (deadlines st)) /\
  Forall (fun d => deadline_id d <= deadline_seq st) (deadlines st) /\
  NoDup (completions st) /\
  NoDup (map schedule_id (schedules st)) /\
  Forall (fun s => schedule_id s <= schedule_seq st) (schedules st).

(** What one update can do to the store. *)
Inductive store_write (st : Store) : Store -> Prop :=
| write_nothing : store_write st st
| write_member (uid : Z) (name : string) :
    store_write st (Sql.upsert_member st uid name)
| write_deadline (ttl : string) (chat : Z) (fid : string) (t : Z) :
    store_write st (fst (Sql.insert_deadline st ttl 0 chat fid t))
| write_posted (ttl : string) (chat : Z) (fid : string) (t mid : Z) :
    store_write st
      (Sql.update_message_id (fst (Sql.insert_deadline st ttl 0 chat fid t))
         (deadline_seq st + 1) mid)
| write_completion (did uid : Z) :
    Sql.has_completion st did uid = false ->
    store_write st (recorded st did uid)
| write_schedule (t : Z) (msg : string) :
    store_write st (fst (Sql.insert_schedule st t msg)).

(** The texts with which [schedule_command] turns a request down. *)
Definition schedule_refusal (t : Text) : Prop :=
  t = OnlyAdmins "/schedule" \/ t = ScheduleUsage \/ t = InvalidDateTime \/
  t = MustBeFuture \/ t = ErrorText.

(** The world after a schedule request was accepted. *)
Definition scheduled (u : Update) (date_str time_str msg : string) (t : Z)
  (w : World) : World :=
  mkWorld (fst (Sql.insert_schedule (db w) t msg)) (user_data w)
    (conversation w)
    (jobs w ++ [mkJob t (schedule_seq (db w) + 1) msg (effective_chat_id u)])
    (outbox w ++ [ReplyText (ReminderScheduled date_str time_str msg)]).

(** The name under which [auto_register_member] stores a user. *)
Definition registered_name (u : Update) : string :=
  if String.eqb (first_name u) "" then "User" else first_name u.

(** Whether [auto_register_member] writes: a group chat, a human sender, a
    reachable store. *)
Definition registers (env : Env) (u : Update) : bool :=
  in_group u && negb (is_bot u) && db_ok env.

Definition admin_status_update : Update :=
  admin_update (OfMessage (mkMessage (Some "status") [] None [] None)).

Definition bob_hello : Update :=
  member_update 42 "Bob" (OfMessage text_message).

Definition carol_hello : Update :=
  member_update 43 "Carol" (OfMessage text_message).

(** A day of the bot: a member writes, an administrator posts a deadline,
    the member completes it twice, a message is scheduled. *)
Definition busy_day : list (Env * Update) :=
  [ (env_up, bob_hello);
    (env_up, admin_update (OfMessage essay_command));
    (env_up, admin_update (OfMessage document_message));
    (env_up, member_update 42 "Bob" (OfCallback (Complete 1)));
    (env_up, member_update 42 "Bob" (OfCallback (Complete 1)));
    (env_up, admin_schedule) ].

(** [l'] is [l] with rows added at the end. *)
Definition extends {A} (l l' : list A) : Prop := exists more, l' = l ++ more.

(** What a deadline row keeps for life: all but the posted-message id. *)
Definition posting (d : DeadlineRow) : Z * string * Z * string * Z :=
  (deadline_id d, title d, chat_id d, file_id d, created_at d).

(** The store [st'] holds all that [st] held. *)
Definition grows (st st' : Store) : Prop :=
  (forall uid, In uid (map fst (members st)) ->
               In uid (map fst (members st'))) /\
  extends (map posting (deadlines st)) (map posting (deadlines st')) /\
  extends (completions st) (completions st') /\
  extends (schedules st) (schedules st').


Definition pavan_renamed : Update :=
  mkUpdate 5 Supergroup 103419413 "Pavan Kumar" false (Some Member)
    (OfMessage text_message).


Definition status_shouted : Message :=
  mkMessage (Some "deadline") ["STATUS"; "report"] None [] None.



(** The roster entries other than [uid]. *)
Definition not_user (uid : Z) (member : Z * string) : bool :=
  negb (fst member =? uid).

(** Rows ordered by creation time, newest first. *)
Fixpoint newest_first (rows : list DeadlineRow) : Prop :=
  match rows with
  | [] => True
  | d :: rest =>
      (forall x, In x rest -> created_at x <= created_at d) /\ newest_first rest
  end.

(** A line of the status report: title, completed, pending. *)
Definition status_line (env : Env) (st : Store) (d : DeadlineRow)
  : string * Z * Z :=
  (title d, Sql.count_completions st (deadline_id d),
   get_member_count env st - Sql.count_completions st (deadline_id d)).




Definition env_delete_fails : Env :=
  mkEnv 2000 (fun _ => Some 2000) true false true (Some 91) true true.

(** ** Start-up *)

(** What [restore_scheduled_jobs] writes to the log. *)
Inductive LogRecord :=
| JobSkipped (msg : string)
| JobsNotRestored (found : Z)
| RestoreFailed.

(** [init_database]: every table is created only if it does not exist, so
    a database file that is there keeps its rows. *)
Definition init_database (file : option Store) : Store :=
  match file with
  | Some st => st
  | None => empty_store
  end.

(** The rows due after the clock are read and a warning is logged for each
    (the chat id was not stored), then one for their number; the job queue
    is not touched.  The value returned here is what was logged. *)
Definition restore_scheduled_jobs (env : Env) : Bot (list LogRecord) :=
  try_except
    (conn <- connect (db_ok env) ;;
     let rows := filter (fun s => now env <? run_time s) (schedules conn) in
     let warnings := map (fun s => JobSkipped (message s)) rows in
     match rows with
     | [] => ret warnings
     | _ :: _ =>
         ret (warnings ++ [JobsNotRestored (Z.of_nat (List.length rows))])
     end)
    (fun _ => ret [RestoreFailed]).

(** [main] up to the first update: the tables are initialised, a fresh
    application (no conversation, no scratch data, empty job queue) is
    built, and [post_init] runs the restoration. *)
Definition startup (env : Env) (file : option Store) : World * list LogRecord :=
  let w := mkWorld (init_database file) None None [] [] in
  match restore_scheduled_jobs env w with
  | (Ok logged, w') => (w', logged)
  | (Raise _, w') => (w', [])
  end.

(** No retry prompt among these actions. *)
Definition no_retry (acts : list Action) : Prop :=
  ~ In (ReplyText RetryFile) acts.

Definition outsider (p : Payload) : Update :=
  mkUpdate 5 Group 42 "Bob" false None p.

Definition status_anywhere : Message :=
  mkMessage (Some "status") [] None [] None.

Definition mention_message : Message :=
  mkMessage (Some "mention") ["Exam"; "tomorrow"] None [] None.

(** * Properties *)

(** ** Dictionaries *)

Module DictFacts.
Import Dict.

Lemma get_set (d : t) (k k' : Z) (v : string) :
  get (set d k v) k' = if k =? k' then Some v else get d k'.
Proof.
  induction d as [|[a b] d IH]; simpl.
  - reflexivity.
  - destruct (a =? k) eqn:Hak; simpl.
    + apply Z.eqb_eq in Hak; subst a.
      destruct (k =? k'); reflexivity.
    + destruct (a =? k') eqn:Hak'.
      * apply Z.eqb_eq in Hak'; subst a.
        rewrite Z.eqb_sym, Hak. reflexivity.
      * exact IH.
Qed.

Lemma get_update (rows : list (Z * string)) : forall (d : t) (k : Z),
  get (update d rows) k =
  match table_name rows k with
  | Some name => Some name
  | None => get d k
  end.
Proof.
  unfold update.
  induction rows as [|[a b] rows IH]; intros d k; simpl.
  - reflexivity.
  - rewrite IH. destruct (table_name rows k); [reflexivity|].
    rewrite get_set. destruct (a =? k); reflexivity.
Qed.

Lemma keys_set (d : t) (k : Z) (v : string) (k' : Z) :
  In k' (keys (set d k v)) <-> k' = k \/ In k' (keys d).
Proof.
  unfold keys.
  induction d as [|[a b] d IH]; simpl.
  - intuition.
  - destruct (a =? k) eqn:Hak; simpl.
    + apply Z.eqb_eq in Hak; subst a. intuition.
    + rewrite IH. intuition.
Qed.

Lemma keys_update (rows : list (Z * string)) : forall (d : t) (k : Z),
  In k (keys (update d rows)) <-> In k (keys d) \/ In k (map fst rows).
Proof.
  unfold update.
  induction rows as [|[a b] rows IH]; intros d k; simpl.
  - intuition.
  - rewrite IH, keys_set. intuition.
Qed.

Lemma NoDup_set (d : t) (k : Z) (v : string) :
  NoDup (keys d) -> NoDup (keys (set d k v)).
Proof.
  unfold keys.
  induction d as [|[a b] d IH]; simpl; intros H.
  - constructor; [intros []|constructor].
  - inversion H as [|x l Hnotin Hnd]; subst.
    destruct (a =? k) eqn:Hak; simpl.
    + apply Z.eqb_eq in Hak; subst a. constructor; assumption.
    + constructor; [|auto].
      intros Hin. apply (keys_set d k v a) in Hin.
      destruct Hin as [->|Hin]; [|contradiction].
      rewrite Z.eqb_refl in Hak. discriminate.
Qed.

Lemma NoDup_update (rows : list (Z * string)) : forall d : t,
  NoDup (keys d) -> NoDup (keys (update d rows)).
Proof.
  unfold update.
  induction rows as [|[a b] rows IH]; intros d H; simpl.
  - exact H.
  - apply IH, NoDup_set, H.
Qed.

Lemma length_set (d : t) (k : Z) (v : string) :
  (List.length d <= List.length (set d k v))%nat.
Proof.
  induction d as [|[a b] d IH]; simpl.
  - lia.
  - destruct (a =? k); simpl; lia.
Qed.

Lemma length_update (rows : list (Z * string)) : forall d : t,
  (List.length d <= List.length (update d rows))%nat.
Proof.
  unfold update.
  induction rows as [|[a b] rows IH]; intros d; simpl.
  - lia.
  - eapply Nat.le_trans; [apply (length_set d a b)|apply IH].
Qed.

(** Entries of an updated dictionary: names of [d] whose key no row
    mentions, and names from the rows. *)
Lemma In_get (d : t) (k : Z) (v : string) :
  NoDup (keys d) -> (In (k, v) d <-> get d k = Some v).
Proof.
  unfold keys.
  induction d as [|[a b] d IH]; simpl; intros H.
  - split; [intros []|discriminate].
  - inversion H as [|x l Hnotin Hnd]; subst.
    destruct (a =? k) eqn:Hak.
    + apply Z.eqb_eq in Hak; subst a. split.
      * intros [Heq|Hin]; [congruence|].
        exfalso. apply Hnotin. apply (in_map fst) in Hin. exact Hin.
      * intros Heq. left. congruence.
    + rewrite <- (IH Hnd). split.
      * intros [Heq|Hin]; [|exact Hin].
        inversion Heq; subst. rewrite Z.eqb_refl in Hak. discriminate.
      * intros Hin. right. exact Hin.
Qed.

End DictFacts.

(** ** The seed list *)

Lemma seed_dict : Dict.update [] MEMBERS = MEMBERS.
Proof. reflexivity. Qed.

Lemma seed_keys_distinct : NoDup (Dict.keys MEMBERS).
Proof.
  unfold Dict.keys, MEMBERS; simpl.
  repeat (constructor; [simpl; intros H; repeat (destruct H as [H|H]; [discriminate H|]); exact H|]).
  constructor.
Qed.

Lemma roster_unfold (env : Env) (st : Store) :
  get_all_member_ids env st =
  match fetch_members env st with
  | Some rows => Dict.update MEMBERS rows
  | None => MEMBERS
  end.
Proof.
  unfold get_all_member_ids. rewrite seed_dict. reflexivity.
Qed.

Lemma roster_keys_distinct (env : Env) (st : Store) :
  NoDup (Dict.keys (get_all_member_ids env st)).
Proof.
  rewrite roster_unfold. destruct (fetch_members env st).
  - apply DictFacts.NoDup_update, seed_keys_distinct.
  - apply seed_keys_distinct.
Qed.

Lemma roster_at_least_seed (env : Env) (st : Store) :
  (8 <= List.length (get_all_member_ids env st))%nat.
Proof.
  rewrite roster_unfold. destruct (fetch_members env st).
  - change 8%nat with (List.length MEMBERS). apply DictFacts.length_update.
  - apply Nat.le_refl.
Qed.

Lemma member_count_at_least_seed (env : Env) (st : Store) :
  8 <= get_member_count env st.
Proof.
  unfold get_member_count. pose proof (roster_at_least_seed env st). lia.
Qed.

Lemma roster_lookup (env : Env) (st : Store) (uid : Z) :
  members_ok env = true ->
  Dict.get (get_all_member_ids env st) uid = roster_spec (members st) uid.
Proof.
  intros Hok. rewrite roster_unfold. unfold fetch_members. rewrite Hok.
  apply DictFacts.get_update.
Qed.

Lemma roster_keys (env : Env) (st : Store) (uid : Z) :
  members_ok env = true ->
  (In uid (Dict.keys (get_all_member_ids env st)) <->
   In uid (Dict.keys MEMBERS) \/ In uid (map fst (members st))).
Proof.
  intros Hok. rewrite roster_unfold. unfold fetch_members. rewrite Hok.
  apply DictFacts.keys_update.
Qed.

Lemma seed_in_roster (env : Env) (st : Store) (uid : Z) :
  In uid (Dict.keys MEMBERS) -> In uid (Dict.keys (get_all_member_ids env st)).
Proof.
  intros Hin. rewrite roster_unfold. destruct (fetch_members env st).
  - apply DictFacts.keys_update. left. exact Hin.
  - exact Hin.
Qed.

(** The number of roster entries is the number of distinct ids known to the
    seed list or to the members table. *)
Lemma roster_size (env : Env) (st : Store) :
  members_ok env = true ->
  List.length (get_all_member_ids env st) =
  List.length (nodup Z.eq_dec (Dict.keys MEMBERS ++ map fst (members st))).
Proof.
  intros Hok.
  rewrite <- (length_map fst (get_all_member_ids env st)).
  apply Permutation_length.
  apply NoDup_Permutation.
  - apply roster_keys_distinct.
  - apply NoDup_nodup.
  - intros uid. rewrite nodup_In, in_app_iff.
    apply (roster_keys env st uid Hok).
Qed.

(** ** Running handlers *)

Ltac bot_unfold :=
  unfold run, bind, ret, raise, try_except, reply_text, answer, emit, reading,
    connect, commit, set_user_data, get_user_data, run_once, of_option,
    delete_message, edit_message_caption, send_file, send_message.

Ltac bot_simpl := bot_unfold; simpl.

(** (C6) Roster resolution starts from the seed list and overlays every row
    of the members table: the resolved name of an id is the table's name
    when the table has the id and the seed's name otherwise, every id occurs
    once, and the ids are those of the seed list and of the table.  When
    the members table cannot be read, the result is the seed list itself. *)
Theorem roster_resolution (env : Env) (st : Store) :
  (members_ok env = true ->
     get_all_member_ids env st = Dict.update MEMBERS (members st) /\
     (forall uid,
        Dict.get (get_all_member_ids env st) uid = roster_spec (members st) uid) /\
     (forall uid name,
        In (uid, name) (get_all_member_ids env st) <->
        roster_spec (members st) uid = Some name) /\
     (forall uid,
        In uid (Dict.keys (get_all_member_ids env st)) <->
        In uid (Dict.keys MEMBERS) \/ In uid (map fst (members st)))) /\
  (members_ok env = false -> get_all_member_ids env st = MEMBERS) /\
  NoDup (Dict.keys (get_all_member_ids env st)).
Proof.
  split; [|split].
  - intros Hok. split; [|split; [|split]].
    + rewrite roster_unfold. unfold fetch_members. rewrite Hok. reflexivity.
    + intros uid. apply roster_lookup, Hok.
    + intros uid name. rewrite <- (roster_lookup env st uid Hok).
      apply DictFacts.In_get, roster_keys_distinct.
    + intros uid. apply roster_keys, Hok.
  - intros Hdown. rewrite roster_unfold. unfold fetch_members.
    rewrite Hdown. reflexivity.
  - apply roster_keys_distinct.
Qed.

Lemma roster_resolution_witness :
  Dict.get (get_all_member_ids env_up store_two_members) 103419413
    = Some "Pavan K" /\
  Dict.get (get_all_member_ids env_up store_two_members) 42 = Some "Bob" /\
  Dict.get (get_all_member_ids env_up store_two_members) 1387393147
    = Some "Vamsee" /\
  get_all_member_ids env_members_down store_two_members = MEMBERS.
Proof.
  pose proof (roster_resolution env_up store_two_members) as [Hup _].
  pose proof (roster_resolution env_members_down store_two_members)
    as [_ [Hdown _]].
  destruct (Hup eq_refl) as [_ [Hget _]].
  split; [|split; [|split]].
  - rewrite Hget. reflexivity.
  - rewrite Hget. reflexivity.
  - rewrite Hget. reflexivity.
  - apply Hdown. reflexivity.
Defined.

(** ** The mention broadcast *)

Lemma mention_command_run (env : Env) (u : Update) (m : Message) (w : World) :
  in_group u = true -> is_admin u = true ->
  run (mention_command env u m) w =
  mkWorld (db w) (user_data w) (conversation w) (jobs w)
    (outbox w
     ++ ReplyText (mention_reply m (get_all_member_ids env (db w)))
     :: after_delete env).
Proof.
  intros Hg Ha. unfold mention_command, mention_reply, after_delete.
  rewrite Hg, Ha. simpl.
  pose proof (roster_at_least_seed env (db w)) as Hlen.
  bot_unfold. simpl.
  destruct (get_all_member_ids env (db w)) as [|e roster] eqn:Hroster;
    [simpl in Hlen; lia|].
  destruct (args m) as [|a rest]; simpl.
  - destruct (delete_ok env); simpl; rewrite <- ?app_assoc; reflexivity.
  - destruct (join (a :: rest)); simpl;
      destruct (delete_ok env); simpl; rewrite <- ?app_assoc; reflexivity.
Qed.

Lemma mention_rejections (env : Env) (u : Update) (m : Message) (w : World) :
  in_group u = false \/ is_admin u = false ->
  exists t,
    (t = OnlyInGroups \/ t = OnlyAdmins "/mention") /\
    run (mention_command env u m) w =
    mkWorld (db w) (user_data w) (conversation w) (jobs w)
      (outbox w ++ [ReplyText t]).
Proof.
  intros H. unfold mention_command.
  destruct (in_group u) eqn:Hg; simpl.
  - destruct H as [H|H]; [discriminate|]. rewrite H. simpl.
    exists (OnlyAdmins "/mention"). split; [right; reflexivity|reflexivity].
  - exists OnlyInGroups. split; [left; reflexivity|reflexivity].
Qed.

Lemma admins_in_seed (uid : Z) : In uid ADMINS -> In uid (Dict.keys MEMBERS).
Proof.
  unfold ADMINS, Dict.keys, MEMBERS. simpl.
  intros [H|[H|[H|[]]]]; subst uid; tauto.
Qed.

(** (C10) The mention broadcast, under either of its two command names,
    answers a group administrator with one message whose mention list is
    the whole resolved roster, in the roster's order; every id of the
    ADMINS constant is in that list. *)
Theorem mention_tags_whole_roster
  (env : Env) (u : Update) (m : Message) (w : World) :
  payload u = OfMessage m ->
  command m = Some "mention" \/ command m = Some "tagall" ->
  in_group u = true -> is_admin u = true ->
  let roster := get_all_member_ids env (db w) in
  let w' := process_update env u w in
  w' = run (mention_command env u m) w /\
  outbox w' = outbox w ++ ReplyText (mention_reply m roster) :: after_delete env /\
  (mention_reply m roster = MentionAll roster \/
   exists text, mention_reply m roster = Notification text roster) /\
  (forall uid, In uid ADMINS -> In uid (map fst roster)).
Proof.
  intros Hp Hc Hg Ha roster w'.
  assert (Hw : w' = run (mention_command env u m) w).
  { unfold w', process_update. rewrite Hp. unfold is_command.
    destruct Hc as [Hc|Hc]; rewrite Hc; reflexivity. }
  split; [exact Hw|]. split; [|split].
  - rewrite Hw, mention_command_run by assumption. reflexivity.
  - unfold mention_reply. destruct (args m); [left; reflexivity|].
    destruct (join (s :: l)); [left; reflexivity|right; eexists; reflexivity].
  - intros uid Hin. apply seed_in_roster, admins_in_seed, Hin.
Qed.

Lemma mention_tags_whole_roster_witness :
  outbox (process_update env_up admin_tagall initial_world) =
  [ReplyText (MentionAll MEMBERS); DeleteMessage].
Proof.
  exact (proj1 (proj2
    (mention_tags_whole_roster env_up admin_tagall
       (mkMessage (Some "tagall") [] None [] None) initial_world
       eq_refl (or_intror eq_refl) eq_refl eq_refl))).
Defined.

(** ** The completion ledger *)

Lemma completion_store_down (env : Env) (u : Update) (did : Z) (w : World) :
  db_ok env = false ->
  run (completion_callback env u did) w =
  said w [Answer NoAlert; Answer ErrorRecording].
Proof.
  intros Hdb. unfold completion_callback, said. bot_simpl.
  rewrite Hdb. simpl. rewrite <- app_assoc. reflexivity.
Qed.

Lemma completion_repeated (env : Env) (u : Update) (did : Z) (w : World) :
  db_ok env = true ->
  Sql.has_completion (db w) did (effective_user_id u) = true ->
  run (completion_callback env u did) w =
  said w [Answer NoAlert; Answer AlreadyCompleted].
Proof.
  intros Hdb Hhas. unfold completion_callback, said. bot_simpl.
  rewrite Hdb. simpl. rewrite Hhas. simpl. rewrite <- app_assoc. reflexivity.
Qed.

Lemma completion_unknown_deadline
  (env : Env) (u : Update) (did : Z) (w : World) :
  db_ok env = true ->
  Sql.has_completion (db w) did (effective_user_id u) = false ->
  Sql.select_title (db w) did = None ->
  run (completion_callback env u did) w =
  said w [Answer NoAlert; Answer ErrorRecording].
Proof.
  intros Hdb Hhas Htitle. unfold completion_callback, said. bot_simpl.
  rewrite Hdb. simpl. rewrite Hhas. simpl.
  unfold Sql.insert_completion. rewrite Hhas. simpl.
  unfold Sql.select_title in *. simpl. rewrite Htitle. simpl.
  rewrite <- app_assoc. reflexivity.
Qed.

Lemma completion_first (env : Env) (u : Update) (did : Z) (w : World)
  (ttl : string) :
  db_ok env = true ->
  Sql.has_completion (db w) did (effective_user_id u) = false ->
  Sql.select_title (db w) did = Some ttl ->
  let st' := recorded (db w) did (effective_user_id u) in
  let c := Sql.count_completions st' did in
  let t := get_member_count env st' in
  run (completion_callback env u did) w =
  mkWorld st' (user_data w) (conversation w) (jobs w)
    (outbox w ++ Answer NoAlert :: caption_edit env ttl c t did
                 ++ [Answer (MarkedCompleted c t)]).
Proof.
  intros Hdb Hhas Htitle st' c t.
  unfold completion_callback. bot_simpl.
  rewrite Hdb. simpl. rewrite Hhas. simpl.
  unfold Sql.insert_completion. rewrite Hhas. simpl.
  unfold Sql.select_title in *. simpl. rewrite Htitle. simpl.
  unfold caption_edit. fold (recorded (db w) did (effective_user_id u)).
  fold st'.
  replace (get_member_count env (db w)) with t by reflexivity.
  fold c.
  destruct (edit_ok env); simpl; rewrite <- ?app_assoc; reflexivity.
Qed.

Lemma has_completion_count (st : Store) (did uid : Z) :
  Sql.has_completion st did uid = false <-> pair_count st did uid = 0%nat.
Proof.
  unfold Sql.has_completion, pair_count.
  induction (completions st) as [|row rows IH]; simpl.
  - tauto.
  - destruct (Sql.same_pair did uid row); simpl.
    + split; [discriminate|intros H; lia].
    + exact IH.
Qed.

Lemma has_completion_positive (st : Store) (did uid : Z) :
  Sql.has_completion st did uid = true <-> (1 <= pair_count st did uid)%nat.
Proof.
  pose proof (has_completion_count st did uid) as H.
  destruct (Sql.has_completion st did uid); split; intros H'.
  - destruct (pair_count st did uid); [|lia].
    destruct H as [_ H]. discriminate (H eq_refl).
  - reflexivity.
  - discriminate.
  - destruct H as [H _]. rewrite (H eq_refl) in H'. lia.
Qed.

Lemma pair_count_recorded (st : Store) (did uid : Z) :
  pair_count (recorded st did uid) did uid = S (pair_count st did uid).
Proof.
  unfold pair_count, recorded, Sql.same_pair. simpl.
  rewrite filter_app, length_app. simpl.
  rewrite !Z.eqb_refl. simpl. lia.
Qed.

Lemma signal_routed (env : Env) (u : Update) (did uid : Z) (w : World) :
  is_signal did uid u ->
  process_update env u w = run (completion_callback env u did) w.
Proof.
  intros [_ Hp]. unfold process_update. rewrite Hp. reflexivity.
Qed.

(** One signal either leaves the store as it is or records the pair for
    the first time. *)
Lemma signal_step (env : Env) (u : Update) (did uid : Z) (w : World) :
  is_signal did uid u ->
  db (process_update env u w) = db w \/
  (pair_count (db w) did uid = 0%nat /\
   db (process_update env u w) = recorded (db w) did uid).
Proof.
  intros Hsig. rewrite (signal_routed env u did uid w Hsig).
  destruct Hsig as [Huid _].
  destruct (db_ok env) eqn:Hdb.
  - destruct (Sql.has_completion (db w) did (effective_user_id u)) eqn:Hhas.
    + left. rewrite completion_repeated by assumption. reflexivity.
    + destruct (Sql.select_title (db w) did) as [ttl|] eqn:Htitle.
      * right. rewrite (completion_first env u did w ttl) by assumption.
        simpl. rewrite <- Huid. split; [|reflexivity].
        apply has_completion_count, Hhas.
      * left. rewrite completion_unknown_deadline by assumption. reflexivity.
  - left. rewrite completion_store_down by assumption. reflexivity.
Qed.

Lemma signals_count (did uid : Z) (events : list (Env * Update)) :
  Forall (fun ev => is_signal did uid (snd ev)) events ->
  forall w,
    pair_count (db (process_all events w)) did uid = pair_count (db w) did uid \/
    (pair_count (db w) did uid = 0%nat /\
     pair_count (db (process_all events w)) did uid = 1%nat).
Proof.
  unfold process_all.
  induction 1 as [|[env u] events Hsig _ IH]; intros w; simpl.
  - left. reflexivity.
  - simpl in Hsig.
    destruct (signal_step env u did uid w Hsig) as [Hsame|[Hzero Hrec]].
    + specialize (IH (process_update env u w)). rewrite Hsame in IH. exact IH.
    + specialize (IH (process_update env u w)). rewrite Hrec in IH.
      rewrite pair_count_recorded, Hzero in IH.
      right. split; [exact Hzero|].
      destruct IH as [IH|[IH _]]; [exact IH|discriminate].
Qed.

(** (C1) Over any sequence of completion signals of one user for one
    deadline, whatever the store and the chat platform answer meanwhile, the
    number of rows stored for the pair grows by at most one, and stays at
    most one when it started so.  A first signal for a posted deadline
    appends the row; a signal for a pair already recorded leaves the store
    as it is, is answered with the already-completed alert and edits no
    caption. *)
Theorem completion_is_idempotent
  (did uid : Z) (events : list (Env * Update)) (w : World) :
  Forall (fun ev => is_signal did uid (snd ev)) events ->
  let w' := process_all events w in
  (pair_count (db w') did uid <= pair_count (db w) did uid + 1)%nat /\
  ((pair_count (db w) did uid <= 1)%nat ->
   (pair_count (db w') did uid <= 1)%nat) /\
  (forall env u w0 ttl,
     is_signal did uid u -> db_ok env = true ->
     pair_count (db w0) did uid = 0%nat ->
     Sql.select_title (db w0) did = Some ttl ->
     completions (db (process_update env u w0)) =
       completions (db w0) ++ [(did, uid)] /\
     pair_count (db (process_update env u w0)) did uid = 1%nat) /\
  (forall env u w0,
     is_signal did uid u ->
     (1 <= pair_count (db w0) did uid)%nat ->
     exists alert,
       process_update env u w0 = said w0 [Answer NoAlert; Answer alert] /\
       (db_ok env = true -> alert = AlreadyCompleted)).
Proof.
  intros Hall w'.
  pose proof (signals_count did uid events Hall w) as Hcount.
  fold w' in Hcount.
  split; [|split; [|split]].
  - destruct Hcount as [H|[_ H]]; rewrite H; lia.
  - intros Hle. destruct Hcount as [H|[_ H]]; rewrite H; lia.
  - intros env u w0 ttl Hsig Hdb Hzero Htitle.
    rewrite (signal_routed env u did uid w0 Hsig).
    destruct Hsig as [Huid _].
    apply has_completion_count in Hzero. rewrite <- Huid in Hzero.
    rewrite (completion_first env u did w0 ttl) by assumption.
    simpl. rewrite Huid. split; [reflexivity|].
    fold (recorded (db w0) did uid). rewrite pair_count_recorded.
    rewrite Huid in Hzero. apply has_completion_count in Hzero.
    rewrite Hzero. reflexivity.
  - intros env u w0 Hsig Hpos.
    rewrite (signal_routed env u did uid w0 Hsig).
    destruct Hsig as [Huid _].
    destruct (db_ok env) eqn:Hdb.
    + exists AlreadyCompleted. split; [|reflexivity].
      apply completion_repeated; [exact Hdb|].
      rewrite Huid. apply has_completion_positive, Hpos.
    + exists ErrorRecording. split; [|discriminate].
      apply completion_store_down, Hdb.
Qed.

Lemma completion_is_idempotent_witness :
  (pair_count (db (process_all three_signals world_posted)) 1 42
   <= pair_count (db world_posted) 1 42 + 1)%nat.
Proof.
  assert (Hall : Forall (fun ev => is_signal 1 42 (snd ev)) three_signals).
  { repeat constructor. }
  exact (proj1 (completion_is_idempotent 1 42 three_signals world_posted Hall)).
Defined.

(** ** The tally *)

Lemma not_recorded_not_in (st : Store) (did uid : Z) :
  Sql.has_completion st did uid = false -> ~ In (did, uid) (completions st).
Proof.
  unfold Sql.has_completion. intros Hhas Hin.
  assert (existsb (Sql.same_pair did uid) (completions st) = true) as Htrue.
  { apply existsb_exists. exists (did, uid). split; [exact Hin|].
    unfold Sql.same_pair. simpl. rewrite !Z.eqb_refl. reflexivity. }
  congruence.
Qed.

(** The composite primary key is kept by the completion handler. *)
Lemma signal_keeps_key (env : Env) (u : Update) (did : Z) (w : World) :
  NoDup (completions (db w)) ->
  NoDup (completions (db (run (completion_callback env u did) w))).
Proof.
  intros Hnd.
  destruct (signal_step env (mkUpdate (effective_chat_id u) (chat_type u)
              (effective_user_id u) (first_name u) (is_bot u) (get_member u)
              (OfCallback (Complete did))) did (effective_user_id u) w
              (conj eq_refl eq_refl)) as [Hsame|[Hzero Hrec]];
    unfold process_update in *; simpl in *.
  - unfold completion_callback in *. simpl in *. rewrite Hsame. exact Hnd.
  - unfold completion_callback in *. simpl in *. rewrite Hrec.
    unfold recorded. simpl.
    apply NoDup_app; [exact Hnd|constructor; [intros []|constructor]|].
    intros row Hin [Heq|[]]. subst row.
    apply has_completion_count in Hzero.
    exact (not_recorded_not_in _ _ _ Hzero Hin).
Qed.

Lemma distinct_users (rows : list (Z * Z)) (did : Z) :
  NoDup rows ->
  NoDup (map snd (filter (fun row => fst row =? did) rows)).
Proof.
  induction rows as [|[d x] rows IH]; simpl; intros Hnd.
  - constructor.
  - inversion Hnd as [|r l Hnotin Hnd']; subst.
    destruct (d =? did) eqn:Hd; simpl; [|auto].
    apply Z.eqb_eq in Hd; subst d.
    constructor; [|auto].
    intros Hin. apply in_map_iff in Hin.
    destruct Hin as [[d' x'] [Hx Hin]]. simpl in Hx; subst x'.
    apply filter_In in Hin. destruct Hin as [Hin Hd']. simpl in Hd'.
    apply Z.eqb_eq in Hd'; subst d'. contradiction.
Qed.

Lemma count_is_distinct_users (st : Store) (did : Z) :
  NoDup (completions st) ->
  Sql.count_completions st did =
  Z.of_nat (List.length (nodup Z.eq_dec (Sql.completed_users st did))).
Proof.
  intros Hnd. unfold Sql.count_completions, Sql.completed_users.
  rewrite nodup_fixed_point.
  - rewrite length_map. reflexivity.
  - apply distinct_users, Hnd.
Qed.

(** (C2) A completion signal that is recorded (store reachable, pair new,
    deadline posted) writes the tally [completed_count / total] on the
    posted message and in the alert, where [completed_count] is the number
    of completion rows of that deadline in the store after the insert and
    [total] the size of the roster resolved from that store.  With the
    primary key in force the count is the number of distinct users with a
    row for the deadline; with the members table readable the total is the
    number of distinct ids of the seed list and the table. *)
Theorem tally_is_recomputed
  (env : Env) (u : Update) (did : Z) (w : World) (ttl : string) :
  payload u = OfCallback (Complete did) ->
  db_ok env = true ->
  Sql.has_completion (db w) did (effective_user_id u) = false ->
  Sql.select_title (db w) did = Some ttl ->
  let w' := process_update env u w in
  let completed_count :=
    Z.of_nat (List.length
                (filter (fun row => fst row =? did) (completions (db w')))) in
  let total := Z.of_nat (List.length (get_all_member_ids env (db w'))) in
  outbox w' =
    outbox w ++ Answer NoAlert
             :: caption_edit env ttl completed_count total did
             ++ [Answer (MarkedCompleted completed_count total)] /\
  (edit_ok env = true ->
   In (EditCaption ttl completed_count total did) (outbox w')) /\
  (NoDup (completions (db w)) ->
   completed_count =
   Z.of_nat (List.length (nodup Z.eq_dec (Sql.completed_users (db w') did)))) /\
  (members_ok env = true ->
   total =
   Z.of_nat (List.length
               (nodup Z.eq_dec
                  (Dict.keys MEMBERS ++ map fst (members (db w')))))).
Proof.
  intros Hp Hdb Hhas Htitle w' completed_count total.
  assert (Hw : w' = run (completion_callback env u did) w).
  { unfold w', process_update. rewrite Hp. reflexivity. }
  pose proof (completion_first env u did w ttl Hdb Hhas Htitle) as Hrun.
  simpl in Hrun. rewrite <- Hw in Hrun.
  assert (Hout : outbox w' =
    outbox w ++ Answer NoAlert
             :: caption_edit env ttl completed_count total did
             ++ [Answer (MarkedCompleted completed_count total)]).
  { unfold completed_count, total. rewrite Hrun. reflexivity. }
  split; [exact Hout|]. split; [|split].
  - intros Hedit. rewrite Hout. unfold caption_edit. rewrite Hedit.
    apply in_or_app. right. right. left. reflexivity.
  - intros Hnd.
    apply (count_is_distinct_users (db w') did).
    rewrite Hw. apply signal_keeps_key, Hnd.
  - intros Hok. unfold total. rewrite (roster_size env (db w') Hok).
    reflexivity.
Qed.

Lemma tally_is_recomputed_witness :
  outbox (process_update env_up
            (member_update 42 "Bob" (OfCallback (Complete 1))) world_posted) =
  [Answer NoAlert; EditCaption "HW1" 1 9 1; Answer (MarkedCompleted 1 9)].
Proof.
  exact (proj1 (tally_is_recomputed env_up
                  (member_update 42 "Bob" (OfCallback (Complete 1)))
                  1 world_posted "HW1" eq_refl eq_refl eq_refl eq_refl)).
Defined.

(** ** The reminder *)

Lemma newest_spec (rows : list DeadlineRow) : forall best,
  In (Sql.newest best rows) (best :: rows) /\
  (forall d, In d (best :: rows) ->
             created_at d <= created_at (Sql.newest best rows)).
Proof.
  induction rows as [|x rows IH]; intros best; simpl.
  - split; [left; reflexivity|].
    intros d [->|[]]. lia.
  - destruct (created_at best <? created_at x) eqn:Hlt.
    + apply Z.ltb_lt in Hlt.
      destruct (IH x) as [Hin Hmax]. split.
      * right. exact Hin.
      * intros d [->|Hd].
        -- pose proof (Hmax x (or_introl eq_refl)). lia.
        -- apply Hmax, Hd.
    + apply Z.ltb_ge in Hlt.
      destruct (IH best) as [Hin Hmax]. split.
      * destruct Hin as [Hin|Hin]; [left; exact Hin|right; right; exact Hin].
      * intros d [->|[->|Hd]].
        -- apply Hmax. left. reflexivity.
        -- pose proof (Hmax best (or_introl eq_refl)). lia.
        -- apply Hmax. right. exact Hd.
Qed.

Lemma latest_deadline_spec (st : Store) :
  deadlines st <> [] ->
  exists d,
    Sql.latest_deadline st = Some d /\
    In d (deadlines st) /\
    (forall d', In d' (deadlines st) -> created_at d' <= created_at d).
Proof.
  unfold Sql.latest_deadline. intros Hne.
  destruct (deadlines st) as [|x rows]; [contradiction|].
  exists (Sql.newest x rows).
  destruct (newest_spec rows x) as [Hin Hmax].
  split; [reflexivity|]. split; assumption.
Qed.

(** Deadlines stored within the same second: the scan keeps the one with
    the smaller rowid. *)
Remark latest_deadline_on_equal_times (st : Store) (d1 d2 : DeadlineRow) :
  deadlines st = [d1; d2] ->
  created_at d1 = created_at d2 ->
  Sql.latest_deadline st = Some d1.
Proof.
  intros Hrows Heq. unfold Sql.latest_deadline. rewrite Hrows. simpl.
  rewrite Heq, Z.ltb_irrefl. reflexivity.
Qed.

Lemma set_conversation_same (w : World) :
  set_conversation (conversation w) w = w.
Proof. destruct w. reflexivity. Qed.

(** [/deadline remind] of an administrator, outside a conversation, runs
    the reminder and no other handler. *)
Lemma remind_routed (env : Env) (u : Update) (m : Message) (w : World)
  (first : string) (rest : list string) :
  payload u = OfMessage m ->
  command m = Some "deadline" ->
  args m = first :: rest ->
  lower first = "remind" ->
  is_admin u = true ->
  conversation w = None ->
  process_update env u w = run (deadline_remind env) w.
Proof.
  intros Hp Hc Hargs Hlow Ha Hconv.
  unfold process_update, conversation_handler, is_command.
  rewrite Hp, Hc, Hconv. simpl.
  unfold in_conversation, deadline_command. rewrite Ha, Hargs. simpl.
  rewrite Hlow. simpl. unfold run, bind, ret.
  destruct (deadline_remind env w) as [[[]|e] w1]; simpl.
  - apply set_conversation_same.
  - reflexivity.
Qed.

Lemma completed_users_spec (st : Store) (did uid : Z) :
  existsb (Z.eqb uid) (Sql.completed_users st did) = true <->
  In (did, uid) (completions st).
Proof.
  unfold Sql.completed_users, Sql.rows_of_deadline.
  rewrite existsb_exists. split.
  - intros [x [Hin Heq]]. apply Z.eqb_eq in Heq; subst x.
    apply in_map_iff in Hin. destruct Hin as [[d x] [Hx Hin]].
    simpl in Hx; subst x. apply filter_In in Hin.
    destruct Hin as [Hin Hd]. simpl in Hd. apply Z.eqb_eq in Hd; subst d.
    exact Hin.
  - intros Hin. exists uid. split; [|apply Z.eqb_refl].
    apply in_map_iff. exists (did, uid). split; [reflexivity|].
    apply filter_In. split; [exact Hin|]. simpl. apply Z.eqb_refl.
Qed.


Lemma deadline_remind_run (env : Env) (w : World) (d : DeadlineRow) :
  db_ok env = true -> db_again_ok env = true ->
  Sql.latest_deadline (db w) = Some d ->
  run (deadline_remind env) w =
  said w [ReplyText
            (remind_text d
               (filter (is_pending (Sql.completed_users (db w) (deadline_id d)))
                       (get_all_member_ids env (db w))))].
Proof.
  intros Hdb Hdb2 Hlatest. unfold deadline_remind, get_latest_deadline, said.
  bot_simpl. rewrite Hdb, Hlatest, Hdb2. simpl.
  destruct (filter _ (get_all_member_ids env (db w))) as [|p pending];
    reflexivity.
Qed.



(** ** Scheduled messages *)

Lemma schedule_not_admin (env : Env) (u : Update) (m : Message) (w : World) :
  is_admin u = false ->
  run (schedule_command env u m) w = said w [ReplyText (OnlyAdmins "/schedule")].
Proof.
  intros Ha. unfold schedule_command. rewrite Ha. reflexivity.
Qed.

Lemma schedule_not_future (env : Env) (u : Update) (m : Message) (w : World)
  (date_str time_str word : string) (words : list string) (t : Z) :
  is_admin u = true ->
  args m = date_str :: time_str :: word :: words ->
  strptime env (date_str ++ " " ++ time_str)%string = Some t ->
  t <= now env ->
  run (schedule_command env u m) w = said w [ReplyText MustBeFuture].
Proof.
  intros Ha Hargs Hparse Hle. unfold schedule_command.
  rewrite Ha, Hargs. bot_simpl. simpl in Hparse. rewrite Hparse. simpl.
  apply Z.leb_le in Hle. rewrite Hle. reflexivity.
Qed.

Lemma schedule_future (env : Env) (u : Update) (m : Message) (w : World)
  (date_str time_str word : string) (words : list string) (t : Z) :
  is_admin u = true ->
  args m = date_str :: time_str :: word :: words ->
  strptime env (date_str ++ " " ++ time_str)%string = Some t ->
  now env < t ->
  db_ok env = true ->
  let msg := join (word :: words) in
  let sid := schedule_seq (db w) + 1 in
  run (schedule_command env u m) w =
  mkWorld (fst (Sql.insert_schedule (db w) t msg)) (user_data w)
    (conversation w)
    (jobs w ++ [mkJob t sid msg (effective_chat_id u)])
    (outbox w ++ [ReplyText (ReminderScheduled date_str time_str msg)]).
Proof.
  intros Ha Hargs Hparse Hlt Hdb msg sid. unfold schedule_command.
  rewrite Ha, Hargs. bot_simpl. simpl in Hparse. rewrite Hparse. simpl.
  apply Z.leb_gt in Hlt. rewrite Hlt, Hdb. reflexivity.
Qed.

Lemma fire_delivered (env : Env) (j : Job) (w : World) (mid : Z) :
  send_result env = Some mid -> db_ok env = true ->
  run (fire env j) w =
  mkWorld (Sql.delete_schedule (db w) (job_schedule_id j)) (user_data w)
    (conversation w) (filter (other_job j) (jobs w))
    (outbox w ++ [SendMessage (job_chat_id j)
                    (ScheduledReminder (job_message j)
                       (get_all_member_ids env (db w)))]).
Proof.
  intros Hsend Hdb. unfold fire, send_scheduled_message. bot_simpl.
  rewrite Hsend. simpl. rewrite Hdb. reflexivity.
Qed.

Lemma fire_undelivered (env : Env) (j : Job) (w : World) :
  send_result env = None ->
  run (fire env j) w =
  mkWorld (db w) (user_data w) (conversation w) (filter (other_job j) (jobs w))
          (outbox w).
Proof.
  intros Hsend. unfold fire, send_scheduled_message. bot_simpl.
  rewrite Hsend. reflexivity.
Qed.

Lemma deleted_schedule_gone (rows : list ScheduleRow) (sid : Z) :
  ~ In sid (map schedule_id (filter (other_schedule sid) rows)).
Proof.
  intros Hin. apply in_map_iff in Hin. destruct Hin as [s [Hid Hin]].
  apply filter_In in Hin. destruct Hin as [_ Hother].
  unfold other_schedule in Hother. rewrite Hid, Z.eqb_refl in Hother.
  discriminate.
Qed.

(** (C4) A schedule request whose parsed time is not after the clock
    leaves the store and the job queue as they were and is answered with a
    refusal.  A request of an administrator with a later time appends one
    row with a fresh id, queues one job carrying that id, the text and the
    chat, and is confirmed.  When the job runs, in whatever world, it
    leaves the queue; if the message is sent (and the store reachable) the
    rows with the job's id are removed, right after the send and with every
    other row kept; if sending raises, the store is left untouched. *)
Theorem schedule_lifecycle (env : Env) (u : Update) (m : Message) (w : World)
  (date_str time_str word : string) (words : list string) (t : Z) :
  args m = date_str :: time_str :: word :: words ->
  strptime env (date_str ++ " " ++ time_str)%string = Some t ->
  let w' := run (schedule_command env u m) w in
  let msg := join (word :: words) in
  let sid := schedule_seq (db w) + 1 in
  let job := mkJob t sid msg (effective_chat_id u) in
  (t <= now env ->
   w' = said w [ReplyText (if is_admin u then MustBeFuture
                           else OnlyAdmins "/schedule")]) /\
  (now env < t -> is_admin u = true -> db_ok env = true ->
   schedules (db w') = schedules (db w) ++ [mkSchedule sid t msg] /\
   schedule_seq (db w') = sid /\
   jobs w' = jobs w ++ [job] /\
   outbox w' =
     outbox w ++ [ReplyText (ReminderScheduled date_str time_str msg)]) /\
  (forall env2 w2 mid,
     send_result env2 = Some mid -> db_ok env2 = true ->
     let w2' := run (fire env2 job) w2 in
     schedules (db w2') = filter (other_schedule sid) (schedules (db w2)) /\
     ~ In sid (map schedule_id (schedules (db w2'))) /\
     outbox w2' =
       outbox w2 ++ [SendMessage (effective_chat_id u)
                       (ScheduledReminder msg
                          (get_all_member_ids env2 (db w2)))] /\
     ~ In sid (map job_schedule_id (jobs w2'))) /\
  (forall env2 w2,
     send_result env2 = None ->
     let w2' := run (fire env2 job) w2 in
     db w2' = db w2 /\ outbox w2' = outbox w2 /\
     ~ In sid (map job_schedule_id (jobs w2'))).
Proof.
  intros Hargs Hparse w' msg sid job.
  assert (Hjobs : forall w2, ~ In sid
            (map job_schedule_id (filter (other_job job) (jobs w2)))).
  { intros w2 Hin. apply in_map_iff in Hin. destruct Hin as [k [Hid Hin]].
    apply filter_In in Hin. destruct Hin as [_ Hother].
    unfold other_job in Hother. simpl in Hother.
    rewrite Hid, Z.eqb_refl in Hother. discriminate. }
  split; [|split; [|split]].
  - intros Hle. unfold w'. destruct (is_admin u) eqn:Ha.
    + apply (schedule_not_future env u m w date_str time_str word words t);
        assumption.
    + apply schedule_not_admin, Ha.
  - intros Hlt Ha Hdb. unfold w'.
    rewrite (schedule_future env u m w date_str time_str word words t)
      by assumption.
    simpl. repeat split.
  - intros env2 w2 mid Hsend Hdb w2'. unfold w2'.
    rewrite (fire_delivered env2 job w2 mid Hsend Hdb). simpl.
    split; [reflexivity|]. split; [apply deleted_schedule_gone|].
    split; [reflexivity|apply Hjobs].
  - intros env2 w2 Hsend w2'. unfold w2'.
    rewrite (fire_undelivered env2 job w2 Hsend). simpl.
    split; [reflexivity|]. split; [reflexivity|apply Hjobs].
Qed.

Lemma schedule_lifecycle_witness :
  run (schedule_command env_late admin_schedule schedule_message) initial_world
    = said initial_world [ReplyText MustBeFuture] /\
  schedules (db world_scheduled) = [mkSchedule 1 2000 "Class today"] /\
  jobs world_scheduled = [mkJob 2000 1 "Class today" 5] /\
  schedules (db (run (fire env_late (mkJob 2000 1 "Class today" 5))
                     world_scheduled)) = [] /\
  db (run (fire env_send_fails (mkJob 2000 1 "Class today" 5)) world_scheduled)
    = db world_scheduled.
Proof.
  pose proof (schedule_lifecycle env_late admin_schedule schedule_message
                initial_world "2026-02-15" "09:00" "Class" ["today"] 2000
                eq_refl eq_refl) as [Hpast _].
  pose proof (schedule_lifecycle env_up admin_schedule schedule_message
                initial_world "2026-02-15" "09:00" "Class" ["today"] 2000
                eq_refl eq_refl) as [_ [Hfuture [Hsent Hfailed]]].
  split; [|split; [|split; [|split]]].
  - apply Hpast. simpl. lia.
  - apply Hfuture; [simpl; lia|reflexivity|reflexivity].
  - apply Hfuture; [simpl; lia|reflexivity|reflexivity].
  - apply (Hsent env_late world_scheduled 77); reflexivity.
  - apply (Hfailed env_send_fails world_scheduled). reflexivity.
Defined.

(** ** The deadline workflow *)

Lemma file_filter_attached (m : Message) :
  file_filter m = true <-> attached_file m <> None.
Proof.
  unfold file_filter, attached_file.
  destruct (document m), (photo m), (video m); simpl;
    split; intros H; try reflexivity; try discriminate; try congruence.
Qed.

Lemma receive_without_file (env : Env) (u : Update) (m : Message) (w : World) :
  attached_file m = None ->
  deadline_receive_file env u m w =
  (Ok (Some WAITING_FOR_FILE), said w [ReplyText RetryFile]).
Proof.
  intros Hnone. unfold deadline_receive_file. bot_simpl.
  rewrite Hnone. reflexivity.
Qed.

Lemma receive_store_down (env : Env) (u : Update) (m : Message) (w : World)
  (kind : FileKind) (fid : string) :
  attached_file m = Some (kind, fid) ->
  db_ok env = false ->
  deadline_receive_file env u m w =
  (Ok (Some END), said w [ReplyText ErrorPosting]).
Proof.
  intros Hfile Hdb. unfold deadline_receive_file. bot_simpl.
  rewrite Hfile. simpl. rewrite Hdb. reflexivity.
Qed.

Lemma receive_send_fails (env : Env) (u : Update) (m : Message) (w : World)
  (kind : FileKind) (fid : string) :
  attached_file m = Some (kind, fid) ->
  db_ok env = true ->
  send_result env = None ->
  deadline_receive_file env u m w =
  (Ok (Some END),
   mkWorld (posted_unpatched env u fid w) (user_data w) (conversation w)
           (jobs w) (outbox w ++ [ReplyText ErrorPosting])).
Proof.
  intros Hfile Hdb Hsend. unfold deadline_receive_file. bot_simpl.
  rewrite Hfile. simpl. rewrite Hdb. simpl. rewrite Hsend. reflexivity.
Qed.

Lemma receive_patch_fails (env : Env) (u : Update) (m : Message) (w : World)
  (kind : FileKind) (fid : string) (mid : Z) :
  attached_file m = Some (kind, fid) ->
  db_ok env = true ->
  send_result env = Some mid ->
  db_again_ok env = false ->
  deadline_receive_file env u m w =
  (Ok (Some END),
   mkWorld (posted_unpatched env u fid w) (user_data w) (conversation w)
           (jobs w)
           (outbox w ++ [SendFile kind (effective_chat_id u) fid
                           (scratch_title w) (deadline_seq (db w) + 1);
                         ReplyText ErrorPosting])).
Proof.
  intros Hfile Hdb Hsend Hdb2. unfold deadline_receive_file. bot_simpl.
  rewrite Hfile. simpl. rewrite Hdb. simpl. rewrite Hsend. simpl.
  rewrite Hdb2. simpl. rewrite <- app_assoc. reflexivity.
Qed.

Lemma receive_posted (env : Env) (u : Update) (m : Message) (w : World)
  (kind : FileKind) (fid : string) (mid : Z) :
  attached_file m = Some (kind, fid) ->
  db_ok env = true ->
  send_result env = Some mid ->
  db_again_ok env = true ->
  deadline_receive_file env u m w =
  (Ok (Some END),
   mkWorld (Sql.update_message_id (posted_unpatched env u fid w)
              (deadline_seq (db w) + 1) mid)
           None (conversation w) (jobs w)
           (outbox w ++ [SendFile kind (effective_chat_id u) fid
                           (scratch_title w) (deadline_seq (db w) + 1);
                         ReplyText DeadlinePosted])).
Proof.
  intros Hfile Hdb Hsend Hdb2. unfold deadline_receive_file. bot_simpl.
  rewrite Hfile. simpl. rewrite Hdb. simpl. rewrite Hsend. simpl.
  rewrite Hdb2. simpl. rewrite <- app_assoc. reflexivity.
Qed.

(** A message without a command, while the conversation waits for a file,
    goes to [deadline_receive_file] exactly when the file filter accepts
    it. *)
Lemma awaiting_file_routing (env : Env) (u : Update) (m : Message) (w : World) :
  payload u = OfMessage m ->
  command m = None ->
  conversation w = Some WAITING_FOR_FILE ->
  process_update env u w =
  if file_filter m then in_conversation (deadline_receive_file env u m) w
  else run (auto_register_member env u) w.
Proof.
  intros Hp Hc Hconv. unfold process_update, conversation_handler, is_command.
  rewrite Hp, Hc, Hconv. simpl.
  destruct (file_filter m); reflexivity.
Qed.

Lemma auto_register_frame (env : Env) (u : Update) (w : World) :
  let w' := run (auto_register_member env u) w in
  outbox w' = outbox w /\ conversation w' = conversation w /\
  user_data w' = user_data w /\ jobs w' = jobs w /\
  deadlines (db w') = deadlines (db w) /\
  completions (db w') = completions (db w) /\
  schedules (db w') = schedules (db w).
Proof.
  unfold auto_register_member.
  destruct (in_group u); simpl; [|repeat split].
  destruct (is_bot u); simpl; [repeat split|].
  bot_simpl. destruct (db_ok env); simpl; repeat split.
Qed.



(** The file handler itself, were it called with a message that carries no
    file, would send the retry prompt and keep waiting. *)
Lemma retry_branch_of_handler (env : Env) (u : Update) (m : Message)
  (w : World) :
  attached_file m = None ->
  in_conversation (deadline_receive_file env u m) w =
  set_conversation (Some WAITING_FOR_FILE) (said w [ReplyText RetryFile]).
Proof.
  intros Hnone. unfold in_conversation.
  rewrite (receive_without_file env u m w Hnone). reflexivity.
Qed.

(** As registered in [main], the file handler sits behind the file filter:
    a plain message without document, photo or video, sent while the
    conversation waits for a file, reaches the auto-registration handler
    instead.  Nothing is sent, the conversation keeps waiting and no
    deadline row is inserted. *)
Lemma text_while_awaiting_file (env : Env) (u : Update) (m : Message)
  (w : World) :
  payload u = OfMessage m ->
  command m = None ->
  conversation w = Some WAITING_FOR_FILE ->
  attached_file m = None ->
  let w' := process_update env u w in
  w' = run (auto_register_member env u) w /\
  outbox w' = outbox w /\
  conversation w' = Some WAITING_FOR_FILE /\
  deadlines (db w') = deadlines (db w).
Proof.
  intros Hp Hc Hconv Hnone w'.
  assert (Hfilter : file_filter m = false).
  { destruct (file_filter m) eqn:Hf; [|reflexivity].
    apply file_filter_attached in Hf. contradiction. }
  assert (Hw : w' = run (auto_register_member env u) w).
  { unfold w'. rewrite (awaiting_file_routing env u m w Hp Hc Hconv), Hfilter.
    reflexivity. }
  pose proof (auto_register_frame env u w) as Hframe. simpl in Hframe.
  rewrite <- Hw in Hframe.
  destruct Hframe as [Hout [Hcv [_ [_ [Hdl _]]]]].
  split; [exact Hw|]. split; [exact Hout|]. split; [congruence|exact Hdl].
Qed.


(** (C7) The scenario of the specification, run: an administrator sends
    /deadline Essay and then a plain text.  The conversation waits for a
    file before and after the text and no deadline row exists, but the text
    is not answered: the outbox still ends with the prompt of the command,
    and no retry prompt is in it, although the file handler called on that
    very message would have sent one.  The document sent next is posted and
    the conversation ends. *)
Theorem text_instead_of_file_gets_no_retry_prompt :
  conversation after_essay_command = Some WAITING_FOR_FILE /\
  outbox after_essay_command = [ReplyText (CreatingDeadline "Essay")] /\
  outbox after_text = [ReplyText (CreatingDeadline "Essay")] /\
  ~ In (ReplyText RetryFile) (outbox after_text) /\
  conversation after_text = Some WAITING_FOR_FILE /\
  deadlines (db after_text) = [] /\
  outbox (snd (deadline_receive_file env_up
                 (admin_update (OfMessage text_message)) text_message
                 after_essay_command))
    = [ReplyText (CreatingDeadline "Essay"); ReplyText RetryFile] /\
  deadlines (db after_document) = [mkDeadline 1 "Essay" 77 5 "F1" 1000] /\
  conversation after_document = None.
Proof.
  repeat split.
  intros [H|[]]. discriminate H.
Qed.

(** ** Privilege *)

Lemma member_is_not_admin (u : Update) :
  is_admin u = false <->
  get_member u <> Some Creator /\ get_member u <> Some Administrator.
Proof.
  unfold is_admin. destruct (get_member u) as [[]|]; simpl;
    split; intros H; try reflexivity; try discriminate;
    try (split; discriminate); destruct H as [H1 H2]; congruence.
Qed.

(** (C8) A /deadline request of a caller who is neither administrator nor
    creator (or whose status cannot be looked up) is answered with the
    admins-only text and changes nothing else: the handler returns no new
    state, and the update, arriving while no conversation is active, leaves
    store, scratch title, conversation state and job queue as they were. *)
Theorem deadline_refused_without_privilege
  (env : Env) (u : Update) (m : Message) (w : World) :
  is_admin u = false ->
  deadline_command env u m w =
    (Ok None, said w [ReplyText (OnlyAdmins "/deadline")]) /\
  (payload u = OfMessage m -> command m = Some "deadline" ->
   conversation w = None ->
   let w' := process_update env u w in
   w' = said w [ReplyText (OnlyAdmins "/deadline")] /\
   db w' = db w /\ deadlines (db w') = deadlines (db w) /\
   user_data w' = user_data w /\
   conversation w' = None /\
   jobs w' = jobs w /\
   outbox w' = outbox w ++ [ReplyText (OnlyAdmins "/deadline")]).
Proof.
  intros Ha.
  assert (Hcmd : deadline_command env u m w =
                 (Ok None, said w [ReplyText (OnlyAdmins "/deadline")])).
  { unfold deadline_command. rewrite Ha. reflexivity. }
  split; [exact Hcmd|].
  intros Hp Hc Hconv w'.
  assert (Hw : w' = said w [ReplyText (OnlyAdmins "/deadline")]).
  { unfold w', process_update, conversation_handler, is_command.
    rewrite Hp, Hc, Hconv. simpl. unfold in_conversation. rewrite Hcmd.
    unfold said, set_conversation. simpl. rewrite Hconv. reflexivity. }
  rewrite Hw. simpl. repeat split. exact Hconv.
Qed.

Lemma deadline_refused_without_privilege_witness :
  process_update env_up outsider_deadline world_posted =
  said world_posted [ReplyText (OnlyAdmins "/deadline")].
Proof.
  pose proof (deadline_refused_without_privilege env_up outsider_deadline
                essay_command world_posted eq_refl) as [_ H].
  exact (proj1 (H eq_refl eq_refl eq_refl)).
Defined.

(** ** The roster is never empty *)

Lemma status_command_run (env : Env) (u : Update) (w : World) :
  run (status_command env u) w =
  said w [ReplyText
            (if is_admin u
             then GroupStatistics (get_member_count env (db w))
                    (get_deadline_count env (db w))
                    (option_map (fun d => (title d, created_at d))
                       (get_latest_deadline env (db w)))
             else OnlyAdmins "/status")].
Proof.
  unfold status_command. destruct (is_admin u); reflexivity.
Qed.

Lemma mention_never_reports_no_members
  (env : Env) (u : Update) (m : Message) (w : World) :
  ~ In (ReplyText NoMembersYet) (outbox w) ->
  ~ In (ReplyText NoMembersYet) (outbox (run (mention_command env u m) w)).
Proof.
  intros Hold Hin.
  destruct (in_group u) eqn:Hg; [destruct (is_admin u) eqn:Ha|].
  - rewrite mention_command_run in Hin by assumption. simpl in Hin.
    apply in_app_or in Hin. destruct Hin as [Hin|[Hin|Hin]].
    + contradiction.
    + unfold mention_reply in Hin. destruct (args m); [discriminate|].
      destruct (join (s :: l)); discriminate.
    + unfold after_delete in Hin. destruct (delete_ok env); simpl in Hin.
      * destruct Hin as [Hin|[]]. discriminate.
      * contradiction.
  - destruct (mention_rejections env u m w (or_intror Ha)) as [t [Ht Hrun]].
    rewrite Hrun in Hin. simpl in Hin.
    apply in_app_or in Hin. destruct Hin as [Hin|[Hin|[]]]; [contradiction|].
    destruct Ht as [-> | ->]; discriminate.
  - destruct (mention_rejections env u m w (or_introl Hg)) as [t [Ht Hrun]].
    rewrite Hrun in Hin. simpl in Hin.
    apply in_app_or in Hin. destruct Hin as [Hin|[Hin|[]]]; [contradiction|].
    destruct Ht as [-> | ->]; discriminate.
Qed.

Lemma caption_total_at_least_seed
  (env : Env) (u : Update) (did : Z) (w : World)
  (ttl : string) (c t d : Z) :
  In (EditCaption ttl c t d) (outbox (run (completion_callback env u did) w)) ->
  In (EditCaption ttl c t d) (outbox w) \/ 8 <= t.
Proof.
  intros Hin.
  destruct (db_ok env) eqn:Hdb.
  - destruct (Sql.has_completion (db w) did (effective_user_id u)) eqn:Hhas.
    + rewrite completion_repeated in Hin by assumption. simpl in Hin.
      apply in_app_or in Hin.
      destruct Hin as [Hin|[Hin|[Hin|[]]]]; [left; exact Hin| |]; discriminate.
    + destruct (Sql.select_title (db w) did) as [ttl'|] eqn:Htitle.
      * rewrite (completion_first env u did w ttl') in Hin by assumption.
        simpl in Hin. apply in_app_or in Hin.
        destruct Hin as [Hin|[Hin|Hin]]; [left; exact Hin|discriminate|].
        apply in_app_or in Hin. destruct Hin as [Hin|[Hin|[]]];
          [|discriminate].
        unfold caption_edit in Hin.
        destruct (edit_ok env); [|contradiction].
        destruct Hin as [Hin|[]]. inversion Hin; subst.
        right. apply member_count_at_least_seed.
      * rewrite completion_unknown_deadline in Hin by assumption.
        simpl in Hin. apply in_app_or in Hin.
        destruct Hin as [Hin|[Hin|[Hin|[]]]]; [left; exact Hin| |];
          discriminate.
  - rewrite completion_store_down in Hin by assumption. simpl in Hin.
    apply in_app_or in Hin.
    destruct Hin as [Hin|[Hin|[Hin|[]]]]; [left; exact Hin| |]; discriminate.
Qed.

(** (C9) Whatever the store holds, and also when the members table cannot
    be read, the resolved roster keeps every one of the 8 seed ids and so
    has at least 8 entries.  Hence the member count shown by /status and
    the total written into a completion tally are at least 8, and the
    mention command never sends its no-members text. *)
Theorem roster_never_empty (env : Env) (st : Store) :
  List.length MEMBERS = 8%nat /\
  (forall uid, In uid (Dict.keys MEMBERS) ->
               In uid (Dict.keys (get_all_member_ids env st))) /\
  (8 <= List.length (get_all_member_ids env st))%nat /\
  get_all_member_ids env st <> [] /\
  8 <= get_member_count env st /\
  (forall u w mc dc latest,
     In (ReplyText (GroupStatistics mc dc latest))
        (outbox (run (status_command env u) w)) ->
     In (ReplyText (GroupStatistics mc dc latest)) (outbox w) \/ 8 <= mc) /\
  (forall u did w ttl c t d,
     In (EditCaption ttl c t d)
        (outbox (run (completion_callback env u did) w)) ->
     In (EditCaption ttl c t d) (outbox w) \/ 8 <= t) /\
  (forall u m w,
     ~ In (ReplyText NoMembersYet) (outbox w) ->
     ~ In (ReplyText NoMembersYet) (outbox (run (mention_command env u m) w))).
Proof.
  pose proof (roster_at_least_seed env st) as Hlen.
  split; [reflexivity|]. split; [|split; [exact Hlen|split; [|split]]].
  - intros uid. apply seed_in_roster.
  - intros Hnil. rewrite Hnil in Hlen. simpl in Hlen. lia.
  - apply member_count_at_least_seed.
  - split; [|split].
    + intros u w mc dc latest Hin. rewrite status_command_run in Hin.
      simpl in Hin. apply in_app_or in Hin.
      destruct Hin as [Hin|[Hin|[]]]; [left; exact Hin|].
      destruct (is_admin u); [|discriminate].
      inversion Hin; subst. right. apply member_count_at_least_seed.
    + intros u did w ttl c t d. apply caption_total_at_least_seed.
    + intros u m w. apply mention_never_reports_no_members.
Qed.

Lemma roster_never_empty_witness :
  (8 <= List.length (get_all_member_ids env_members_down empty_store))%nat /\
  ~ In (ReplyText NoMembersYet)
       (outbox (run (mention_command env_members_down admin_tagall
                       (mkMessage (Some "tagall") [] None [] None))
                    initial_world)).
Proof.
  pose proof (roster_never_empty env_members_down empty_store)
    as [_ [_ [Hlen [_ [_ [_ [_ Hmention]]]]]]].
  split; [exact Hlen|].
  apply Hmention. simpl. intros [].
Defined.

(** * Further properties of the handlers *)

(** ** Every write of an update *)

Lemma mention_frame (env : Env) (u : Update) (m : Message) (w : World) :
  exists acts, run (mention_command env u m) w = said w acts.
Proof.
  destruct (in_group u) eqn:Hg; [destruct (is_admin u) eqn:Ha|].
  - eexists. apply mention_command_run; assumption.
  - destruct (mention_rejections env u m w (or_intror Ha)) as [t [_ H]].
    eexists. exact H.
  - destruct (mention_rejections env u m w (or_introl Hg)) as [t [_ H]].
    eexists. exact H.
Qed.

Lemma status_store (env : Env) (u : Update) (w : World) :
  db (run (status_command env u) w) = db w.
Proof. rewrite status_command_run. reflexivity. Qed.

Lemma deadline_status_frame (env : Env) (w : World) :
  exists t, deadline_status env w = (Ok tt, said w [ReplyText t]).
Proof.
  unfold deadline_status, said. bot_unfold.
  destruct (db_ok env); simpl.
  - destruct (Sql.status_rows (db w)); simpl; eexists; reflexivity.
  - eexists; reflexivity.
Qed.

Lemma deadline_remind_frame (env : Env) (w : World) :
  exists t, deadline_remind env w = (Ok tt, said w [ReplyText t]).
Proof.
  unfold deadline_remind, said. bot_unfold. simpl.
  destruct (get_latest_deadline env (db w)); simpl.
  - destruct (db_again_ok env); simpl.
    + match goal with |- context [if ?c then _ else _] => destruct c end;
        eexists; reflexivity.
    + eexists; reflexivity.
  - eexists; reflexivity.
Qed.

Lemma world_eta (w : World) :
  mkWorld (db w) (user_data w) (conversation w) (jobs w) (outbox w) = w.
Proof. destruct w. reflexivity. Qed.

Lemma auto_register_cases (env : Env) (u : Update) (w : World) :
  auto_register_member env u w =
  (Ok None,
   if registers env u
   then mkWorld (Sql.upsert_member (db w) (effective_user_id u)
                   (registered_name u))
                (user_data w) (conversation w) (jobs w) (outbox w)
   else w).
Proof.
  unfold auto_register_member, registers, registered_name.
  destruct (in_group u); simpl; [|reflexivity].
  destruct (is_bot u); simpl; [reflexivity|].
  bot_unfold. destruct (db_ok env); reflexivity.
Qed.

Lemma schedule_cases (env : Env) (u : Update) (m : Message) (w : World) :
  (exists t, schedule_refusal t /\
             schedule_command env u m w = (Ok None, said w [ReplyText t])) \/
  (exists date_str time_str word words ts,
     args m = date_str :: time_str :: word :: words /\
     strptime env (date_str ++ " " ++ time_str)%string = Some ts /\
     now env < ts /\ is_admin u = true /\ db_ok env = true /\
     schedule_command env u m w =
       (Ok None, scheduled u date_str time_str (join (word :: words)) ts w)).
Proof.
  unfold schedule_command, schedule_refusal.
  destruct (is_admin u) eqn:Ha; simpl;
    [|left; eexists; split; [left; reflexivity|reflexivity]].
  destruct (args m) as [|date_str [|time_str [|word words]]] eqn:Hargs;
    try (left; eexists; split; [right; left; reflexivity|reflexivity]).
  bot_unfold.
  destruct (strptime env (date_str ++ " " ++ time_str)%string) as [ts|] eqn:Hp;
    simpl in Hp; simpl; rewrite Hp; simpl.
  - destruct (ts <=? now env) eqn:Hle; simpl.
    + left. eexists. split; [right; right; right; left; reflexivity|].
      reflexivity.
    + destruct (db_ok env) eqn:Hdb; simpl.
      * right. exists date_str, time_str, word, words, ts.
        apply Z.leb_gt in Hle. repeat split; try assumption.
      * left. eexists. split; [right; right; right; right; reflexivity|].
        reflexivity.
  - left. eexists. split; [right; right; left; reflexivity|reflexivity].
Qed.

Lemma deadline_command_cases (env : Env) (u : Update) (m : Message) (w : World) :
  (exists t, deadline_command env u m w = (Ok None, said w [ReplyText t])) \/
  deadline_command env u m w = (Ok (Some END), said w [ReplyText DeadlineUsage]) \/
  (is_admin u = true /\ args m <> [] /\
   deadline_command env u m w =
   (Ok (Some WAITING_FOR_FILE),
    mkWorld (db w) (Some (join (args m))) (conversation w) (jobs w)
            (outbox w ++ [ReplyText (CreatingDeadline (join (args m)))]))).
Proof.
  unfold deadline_command.
  destruct (is_admin u) eqn:Ha; simpl; [|left; eexists; reflexivity].
  destruct (args m) as [|first rest] eqn:Hargs.
  - right. left. reflexivity.
  - destruct (String.eqb (lower first) "status") eqn:Hs.
    + left. destruct (deadline_status_frame env w) as [t Ht].
      exists t. unfold bind, ret. rewrite Ht. reflexivity.
    + destruct (String.eqb (lower first) "remind") eqn:Hr.
      * left. destruct (deadline_remind_frame env w) as [t Ht].
        exists t. unfold bind, ret. rewrite Ht. reflexivity.
      * right. right. split; [reflexivity|]. split; [discriminate|].
        reflexivity.
Qed.

Lemma receive_write (env : Env) (u : Update) (m : Message) (w : World) :
  exists new_state w',
    deadline_receive_file env u m w = (Ok new_state, w') /\
    store_write (db w) (db w') /\
    jobs w' = jobs w /\ conversation w' = conversation w.
Proof.
  destruct (attached_file m) as [[kind fid]|] eqn:Hfile.
  - destruct (db_ok env) eqn:Hdb.
    + destruct (send_result env) as [mid|] eqn:Hsend.
      * destruct (db_again_ok env) eqn:Hdb2.
        -- rewrite (receive_posted env u m w kind fid mid) by assumption.
           do 2 eexists. split; [reflexivity|]. simpl.
           split; [apply write_posted|split; reflexivity].
        -- rewrite (receive_patch_fails env u m w kind fid mid) by assumption.
           do 2 eexists. split; [reflexivity|]. simpl.
           split; [apply write_deadline|split; reflexivity].
      * rewrite (receive_send_fails env u m w kind fid) by assumption.
        do 2 eexists. split; [reflexivity|]. simpl.
        split; [apply write_deadline|split; reflexivity].
    + rewrite (receive_store_down env u m w kind fid) by assumption.
      do 2 eexists. split; [reflexivity|]. simpl.
      split; [apply write_nothing|split; reflexivity].
  - rewrite (receive_without_file env u m w Hfile).
    do 2 eexists. split; [reflexivity|]. simpl.
    split; [apply write_nothing|split; reflexivity].
Qed.

Lemma completion_write (env : Env) (u : Update) (did : Z) (w : World) :
  store_write (db w) (db (run (completion_callback env u did) w)) /\
  jobs (run (completion_callback env u did) w) = jobs w /\
  conversation (run (completion_callback env u did) w) = conversation w /\
  user_data (run (completion_callback env u did) w) = user_data w.
Proof.
  destruct (db_ok env) eqn:Hdb.
  - destruct (Sql.has_completion (db w) did (effective_user_id u)) eqn:Hhas.
    + rewrite completion_repeated by assumption. simpl.
      split; [apply write_nothing|repeat split].
    + destruct (Sql.select_title (db w) did) as [ttl|] eqn:Htitle.
      * rewrite (completion_first env u did w ttl) by assumption. simpl.
        split; [apply write_completion, Hhas|repeat split].
      * rewrite completion_unknown_deadline by assumption. simpl.
        split; [apply write_nothing|repeat split].
  - rewrite completion_store_down by assumption. simpl.
    split; [apply write_nothing|repeat split].
Qed.

Lemma conversation_write (env : Env) (u : Update) (m : Message) (w : World)
  (h : Bot (option Z)) :
  conversation_handler env u m (conversation w) = Some h ->
  store_write (db w) (db (in_conversation h w)) /\
  jobs (in_conversation h w) = jobs w.
Proof.
  unfold conversation_handler, in_conversation.
  destruct (conversation w) as [s|].
  - destruct ((s =? WAITING_FOR_FILE) && file_filter m).
    + intros H; inversion H; subst h.
      destruct (receive_write env u m w) as [ns [w' [Hrun [Hw [Hj _]]]]].
      rewrite Hrun. simpl. split; assumption.
    + destruct (is_command m "cancel"); [|discriminate].
      intros H; inversion H; subst h. simpl.
      split; [apply write_nothing|reflexivity].
  - destruct (is_command m "deadline"); [|discriminate].
    intros H; inversion H; subst h.
    destruct (deadline_command_cases env u m w) as [[t Ht]|[Ht|[_ [_ Ht]]]];
      rewrite Ht; simpl; (split; [apply write_nothing|reflexivity]).
Qed.

(** The store after an update is the store before it, or differs from it by
    one of the writes of [store_write]. *)
Lemma process_update_write (env : Env) (u : Update) (w : World) :
  store_write (db w) (db (process_update env u w)).
Proof.
  unfold process_update.
  destruct (payload u) as [m|[did|]].
  - destruct (is_command m "start"); [apply write_nothing|].
    destruct (is_command m "help"); [apply write_nothing|].
    destruct (mention_frame env u m w) as [acts Hm].
    destruct (is_command m "mention"); [rewrite Hm; apply write_nothing|].
    destruct (is_command m "tagall"); [rewrite Hm; apply write_nothing|].
    destruct (is_command m "status");
      [rewrite status_command_run; apply write_nothing|].
    destruct (is_command m "schedule").
    + unfold run.
      destruct (schedule_cases env u m w)
        as [[t [_ Ht]]|[d [tm [wd [ws [ts [_ [_ [_ [_ [_ Ht]]]]]]]]]]];
        rewrite Ht; simpl; [apply write_nothing|apply write_schedule].
    + destruct (conversation_handler env u m (conversation w)) as [h|] eqn:Hh.
      * apply (conversation_write env u m w h Hh).
      * unfold run. rewrite auto_register_cases. simpl.
        destruct (registers env u); simpl;
          [apply write_member|apply write_nothing].
  - apply completion_write.
  - apply write_nothing.
Qed.

(** ** The keys of the schema *)

Lemma upsert_is_dict_set (rows : list (Z * string)) (uid : Z) (name : string) :
  Sql.upsert_rows rows uid name = Dict.set rows uid name.
Proof.
  induction rows as [|[k v] rows IH]; simpl.
  - reflexivity.
  - destruct (k =? uid) eqn:Hk.
    + apply Z.eqb_eq in Hk. subst k. reflexivity.
    + rewrite IH. reflexivity.
Qed.

Lemma fresh_id_NoDup {A} (f : A -> Z) (rows : list A) (row : A) (seq : Z) :
  Forall (fun r => f r <= seq) rows ->
  NoDup (map f rows) ->
  f row = seq + 1 ->
  NoDup (map f (rows ++ [row])) /\
  Forall (fun r => f r <= seq + 1) (rows ++ [row]).
Proof.
  intros Hle Hnd Hrow. split.
  - rewrite map_app. apply NoDup_app; [exact Hnd| |].
    + simpl. constructor; [intros []|constructor].
    + intros x Hin [Hx|[]]. subst x.
      apply in_map_iff in Hin. destruct Hin as [r [Hr Hin]].
      rewrite Forall_forall in Hle. specialize (Hle r Hin). lia.
  - apply Forall_app. split.
    + eapply Forall_impl; [|exact Hle]. simpl. intros r Hr. lia.
    + constructor; [lia|constructor].
Qed.

Lemma patched_ids (rows : list DeadlineRow) (did mid : Z) :
  map deadline_id
    (map (fun d => if deadline_id d =? did
                   then mkDeadline (deadline_id d) (title d) mid
                          (chat_id d) (file_id d) (created_at d)
                   else d) rows)
  = map deadline_id rows.
Proof.
  rewrite map_map. apply map_ext. intros d.
  destruct (deadline_id d =? did); reflexivity.
Qed.

Lemma patched_bound (rows : list DeadlineRow) (did mid seq : Z) :
  Forall (fun d => deadline_id d <= seq) rows ->
  Forall (fun d => deadline_id d <= seq)
    (map (fun d => if deadline_id d =? did
                   then mkDeadline (deadline_id d) (title d) mid
                          (chat_id d) (file_id d) (created_at d)
                   else d) rows).
Proof.
  intros H. apply Forall_map. eapply Forall_impl; [|exact H].
  intros d Hd. simpl. destruct (deadline_id d =? did); exact Hd.
Qed.

Lemma write_keeps_keys (st st' : Store) :
  store_write st st' -> keys_ok st -> keys_ok st'.
Proof.
  intros Hw (Hm & Hd & Hds & Hc & Hs & Hss).
  destruct Hw; unfold keys_ok; simpl.
  - repeat split; assumption.
  - repeat split; try assumption.
    rewrite upsert_is_dict_set. apply DictFacts.NoDup_set, Hm.
  - destruct (fresh_id_NoDup deadline_id (deadlines st)
                (mkDeadline (deadline_seq st + 1) ttl 0 chat fid t)
                (deadline_seq st) Hds Hd eq_refl) as [H1 H2].
    repeat split; assumption.
  - destruct (fresh_id_NoDup deadline_id (deadlines st)
                (mkDeadline (deadline_seq st + 1) ttl 0 chat fid t)
                (deadline_seq st) Hds Hd eq_refl) as [H1 H2].
    repeat split; try assumption.
    + rewrite patched_ids. exact H1.
    + apply patched_bound. exact H2.
  - repeat split; try assumption.
    apply NoDup_app; [exact Hc|constructor; [intros []|constructor]|].
    intros row Hin [Heq|[]]. subst row.
    exact (not_recorded_not_in _ _ _ H Hin).
  - destruct (fresh_id_NoDup schedule_id (schedules st)
                (mkSchedule (schedule_seq st + 1) t msg)
                (schedule_seq st) Hss Hs eq_refl) as [H1 H2].
    repeat split; assumption.
Qed.

Lemma fire_store (env : Env) (j : Job) (w : World) :
  db (run (fire env j) w) = db w \/
  db (run (fire env j) w) = Sql.delete_schedule (db w) (job_schedule_id j).
Proof.
  destruct (send_result env) as [mid|] eqn:Hsend.
  - destruct (db_ok env) eqn:Hdb.
    + right. rewrite (fire_delivered env j w mid Hsend Hdb). reflexivity.
    + left. unfold fire, send_scheduled_message. bot_unfold. simpl.
      rewrite Hsend. simpl. rewrite Hdb. reflexivity.
  - left. rewrite (fire_undelivered env j w Hsend). reflexivity.
Qed.

Lemma delete_keeps_keys (st : Store) (sid : Z) :
  keys_ok st -> keys_ok (Sql.delete_schedule st sid).
Proof.
  intros (Hm & Hd & Hds & Hc & Hs & Hss). unfold keys_ok. simpl.
  repeat split; try assumption.
  - clear Hss. induction (schedules st) as [|s rows IH]; simpl.
    + constructor.
    + inversion Hs as [|x l Hnotin Hnd]; subst.
      destruct (negb (schedule_id s =? sid)); simpl; [|auto].
      constructor; [|auto].
      intros Hin. apply Hnotin. apply in_map_iff in Hin.
      destruct Hin as [r [Hr Hin]]. apply filter_In in Hin.
      apply in_map_iff. exists r. tauto.
  - apply Forall_forall. intros s Hin. apply filter_In in Hin.
    rewrite Forall_forall in Hss. apply Hss. tauto.
Qed.

(** (X1) The uniqueness constraints of the schema (one row per member id,
    per deadline id, per (deadline, user) pair and per schedule id, ids
    never above their AUTOINCREMENT counter) are kept by every update the
    bot handles and by every scheduled job it runs, whatever the
    environment answers. *)
Theorem keys_kept (events : list (Env * Update)) (env : Env) (j : Job)
  (w : World) :
  keys_ok (db w) ->
  keys_ok (db (process_all events w)) /\
  keys_ok (db (run (fire env j) (process_all events w))).
Proof.
  intros Hok.
  assert (Hall : keys_ok (db (process_all events w))).
  { revert w Hok. unfold process_all.
    induction events as [|[e u] events IH]; intros w Hok; simpl.
    - exact Hok.
    - apply IH. apply (write_keeps_keys (db w)); [|exact Hok].
      apply process_update_write. }
  split; [exact Hall|].
  destruct (fire_store env j (process_all events w)) as [H|H]; rewrite H.
  - exact Hall.
  - apply delete_keeps_keys, Hall.
Qed.

Lemma keys_kept_witness :
  keys_ok (db (process_all busy_day initial_world)).
Proof.
  assert (Hempty : keys_ok (db initial_world)).
  { unfold keys_ok. simpl. repeat split; constructor. }
  exact (proj1 (keys_kept busy_day env_up (mkJob 2000 1 "Class today" 5)
                  initial_world Hempty)).
Defined.

(** ** Rows are only ever added *)

Lemma extends_refl {A} (l : list A) : extends l l.
Proof. exists []. symmetry. apply app_nil_r. Qed.

Lemma extends_trans {A} (l1 l2 l3 : list A) :
  extends l1 l2 -> extends l2 l3 -> extends l1 l3.
Proof.
  intros [m1 H1] [m2 H2]. exists (m1 ++ m2). subst. apply eq_sym, app_assoc.
Qed.

Lemma extends_one {A} (l : list A) (x : A) : extends l (l ++ [x]).
Proof. exists [x]. reflexivity. Qed.

Lemma patched_posting (rows : list DeadlineRow) (did mid : Z) :
  map posting
    (map (fun d => if deadline_id d =? did
                   then mkDeadline (deadline_id d) (title d) mid
                          (chat_id d) (file_id d) (created_at d)
                   else d) rows)
  = map posting rows.
Proof.
  rewrite map_map. apply map_ext. intros d.
  destruct (deadline_id d =? did); reflexivity.
Qed.

Lemma upsert_keeps_ids (rows : list (Z * string)) (uid : Z) (name : string)
  (k : Z) :
  In k (map fst rows) -> In k (map fst (Sql.upsert_rows rows uid name)).
Proof.
  rewrite upsert_is_dict_set. intros Hin.
  apply (DictFacts.keys_set rows uid name k). right. exact Hin.
Qed.

Lemma write_grows (st st' : Store) : store_write st st' -> grows st st'.
Proof.
  intros Hw. destruct Hw; unfold grows; simpl.
  - repeat split; try apply extends_refl. auto.
  - repeat split; try apply extends_refl. intros k. apply upsert_keeps_ids.
  - repeat split; try apply extends_refl; [auto|].
    rewrite map_app. apply extends_one.
  - repeat split; try apply extends_refl; [auto|].
    rewrite patched_posting, map_app. apply extends_one.
  - repeat split; try apply extends_refl; [auto|]. apply extends_one.
  - repeat split; try apply extends_refl; [auto|]. apply extends_one.
Qed.

Lemma grows_trans (s1 s2 s3 : Store) : grows s1 s2 -> grows s2 s3 -> grows s1 s3.
Proof.
  intros (A1 & B1 & C1 & D1) (A2 & B2 & C2 & D2). unfold grows.
  repeat split; [auto| | |]; eapply extends_trans; eassumption.
Qed.

Lemma process_all_grows (events : list (Env * Update)) (w : World) :
  grows (db w) (db (process_all events w)).
Proof.
  revert w. unfold process_all.
  induction events as [|[e u] events IH]; intros w; simpl.
  - apply write_grows, write_nothing.
  - eapply grows_trans; [|apply IH].
    apply write_grows, process_update_write.
Qed.

(** (X2) Handling updates never deletes or rewrites what the store holds:
    after any sequence of updates every member id is still registered, and
    the deadlines (all fields but the posted-message id), the completion
    rows and the schedule rows of before are still there, in place, with
    new rows only added after them. *)
Theorem updates_only_add_rows (events : list (Env * Update)) (w : World) :
  let st := db w in
  let st' := db (process_all events w) in
  (forall uid, In uid (map fst (members st)) ->
               In uid (map fst (members st'))) /\
  extends (map posting (deadlines st)) (map posting (deadlines st')) /\
  extends (completions st) (completions st') /\
  extends (schedules st) (schedules st').
Proof.
  simpl. exact (process_all_grows events w).
Qed.

(** ** Auto-registration and the roster *)



Lemma registered_world (env : Env) (u : Update) (w : World) :
  registers env u = true ->
  run (auto_register_member env u) w =
  mkWorld (Sql.upsert_member (db w) (effective_user_id u) (registered_name u))
          (user_data w) (conversation w) (jobs w) (outbox w).
Proof.
  intros Hreg. unfold run. rewrite auto_register_cases, Hreg. reflexivity.
Qed.



Lemma dict_set_twice (d : Dict.t) (k : Z) (v v' : string) :
  Dict.set (Dict.set d k v) k v' = Dict.set d k v'.
Proof.
  induction d as [|[a b] d IH]; simpl.
  - rewrite Z.eqb_refl. reflexivity.
  - destruct (a =? k) eqn:Hak; simpl.
    + rewrite Z.eqb_refl. reflexivity.
    + rewrite Hak, IH. reflexivity.
Qed.

(** (X4) Auto-registration writes nothing in a private chat or a channel,
    for a bot, or when the store cannot be opened, and never sends
    anything.  Seeing the same user again only refreshes the name: two
    sightings leave the world as the second alone would, with one row for
    the user. *)
Theorem registration_is_idempotent (env1 env2 : Env) (u1 u2 : Update)
  (w : World) :
  effective_user_id u1 = effective_user_id u2 ->
  (registers env1 u1 = false -> run (auto_register_member env1 u1) w = w) /\
  outbox (run (auto_register_member env1 u1) w) = outbox w /\
  (registers env1 u1 = true -> registers env2 u2 = true ->
   run (auto_register_member env2 u2) (run (auto_register_member env1 u1) w)
   = run (auto_register_member env2 u2) w).
Proof.
  intros Hid. split; [|split].
  - intros Hno. unfold run. rewrite auto_register_cases, Hno. reflexivity.
  - unfold run. rewrite auto_register_cases.
    destruct (registers env1 u1); reflexivity.
  - intros H1 H2.
    rewrite (registered_world env1 u1 w H1).
    rewrite !(registered_world env2 u2) by exact H2. simpl.
    unfold Sql.upsert_member. simpl.
    rewrite Hid, !upsert_is_dict_set, dict_set_twice. reflexivity.
Qed.

Lemma registration_is_idempotent_witness :
  run (auto_register_member env_up pavan_renamed)
      (run (auto_register_member env_up
              (member_update 103419413 "Pavan" (OfMessage text_message)))
           world_posted)
  = run (auto_register_member env_up pavan_renamed) world_posted.
Proof.
  pose proof (registration_is_idempotent env_up env_up
                (member_update 103419413 "Pavan" (OfMessage text_message))
                pavan_renamed world_posted eq_refl) as [_ [_ H]].
  apply H; reflexivity.
Defined.

Lemma keys_set_app (d : Dict.t) (k : Z) (v : string) :
  Dict.keys (Dict.set d k v) =
  Dict.keys d ++ (if existsb (Z.eqb k) (Dict.keys d) then [] else [k]).
Proof.
  unfold Dict.keys.
  induction d as [|[a b] d IH]; simpl.
  - reflexivity.
  - destruct (a =? k) eqn:Hak; simpl.
    + apply Z.eqb_eq in Hak. subst a. rewrite Z.eqb_refl. simpl.
      rewrite app_nil_r. reflexivity.
    + rewrite Z.eqb_sym, Hak. simpl. rewrite IH. reflexivity.
Qed.

Lemma keys_update_app (rows : list (Z * string)) : forall d : Dict.t,
  exists extra,
    Dict.keys (Dict.update d rows) = Dict.keys d ++ extra /\
    (forall k, In k extra -> In k (map fst rows) /\ ~ In k (Dict.keys d)).
Proof.
  unfold Dict.update.
  induction rows as [|[a b] rows IH]; intros d; simpl.
  - exists []. split; [symmetry; apply app_nil_r|intros k []].
  - destruct (IH (Dict.set d a b)) as [extra [Hkeys Hextra]].
    rewrite keys_set_app in Hkeys.
    exists ((if existsb (Z.eqb a) (Dict.keys d) then [] else [a]) ++ extra).
    split; [rewrite Hkeys, app_assoc; reflexivity|].
    intros k Hin. apply in_app_or in Hin. destruct Hin as [Hin|Hin].
    + destruct (existsb (Z.eqb a) (Dict.keys d)) eqn:Hex; [destruct Hin|].
      destruct Hin as [<-|[]]. split; [left; reflexivity|].
      intros Hin. assert (existsb (Z.eqb a) (Dict.keys d) = true) as Ht.
      { apply existsb_exists. exists a. split; [exact Hin|apply Z.eqb_refl]. }
      congruence.
    + destruct (Hextra k Hin) as [Hrows Hnot]. split; [right; exact Hrows|].
      intros Hd. apply Hnot. apply DictFacts.keys_set. right. exact Hd.
Qed.

(** (X5) The resolved roster lists the eight seed ids first, in the order
    of the seed list, whatever the members table holds; the ids that follow
    are ids of the members table that the seed list does not have.  A
    mention list built from the roster therefore always starts with the
    seed members. *)
Theorem roster_keeps_seed_order (env : Env) (st : Store) :
  exists extra,
    Dict.keys (get_all_member_ids env st) = Dict.keys MEMBERS ++ extra /\
    firstn 8 (Dict.keys (get_all_member_ids env st)) = Dict.keys MEMBERS /\
    NoDup extra /\
    (forall uid, In uid extra ->
       In uid (map fst (members st)) /\ ~ In uid (Dict.keys MEMBERS)) /\
    (members_ok env = true ->
     forall uid, In uid (map fst (members st)) ->
                 ~ In uid (Dict.keys MEMBERS) -> In uid extra).
Proof.
  rewrite roster_unfold. unfold fetch_members.
  destruct (members_ok env) eqn:Hok.
  - destruct (keys_update_app (members st) MEMBERS) as [extra [Hkeys Hextra]].
    exists extra. split; [exact Hkeys|]. split; [|split; [|split]].
    + rewrite Hkeys. change 8%nat with (List.length (Dict.keys MEMBERS) + 0)%nat.
      rewrite firstn_app_2. simpl. reflexivity.
    + pose proof (DictFacts.NoDup_update (members st) MEMBERS
                    seed_keys_distinct) as Hnd.
      rewrite Hkeys in Hnd. apply NoDup_app_remove_l in Hnd. exact Hnd.
    + exact Hextra.
    + intros _ uid Hin Hnot.
      assert (In uid (Dict.keys (Dict.update MEMBERS (members st)))) as H.
      { apply DictFacts.keys_update. right. exact Hin. }
      rewrite Hkeys in H. apply in_app_or in H. tauto.
  - exists []. split; [symmetry; apply app_nil_r|].
    split; [reflexivity|]. split; [constructor|].
    split; [intros uid []|discriminate].
Qed.

Lemma roster_keeps_seed_order_witness :
  exists extra,
    Dict.keys (get_all_member_ids env_up store_two_members)
      = Dict.keys MEMBERS ++ extra /\
    In 42 extra.
Proof.
  destruct (roster_keeps_seed_order env_up store_two_members)
    as [extra [Hkeys [_ [_ [_ Hin]]]]].
  exists extra. split; [exact Hkeys|].
  apply (Hin eq_refl).
  - simpl. right. left. reflexivity.
  - unfold Dict.keys, MEMBERS. simpl.
    intros H. repeat (destruct H as [H|H]; [discriminate H|]). exact H.
Defined.

Lemma same_keys_same_length (l1 l2 : list Z) :
  NoDup l1 -> NoDup l2 -> (forall k, In k l1 <-> In k l2) ->
  List.length l1 = List.length l2.
Proof.
  intros H1 H2 Hiff. apply Permutation_length.
  apply NoDup_Permutation; assumption.
Qed.

(** (X6) Registration and the member count: when the store is readable, a
    newly seen user whose id is neither in the seed list nor in the members
    table raises the member count by exactly one; a user already known to
    either leaves it as it was. *)
Theorem registration_changes_count (env env' : Env) (u : Update) (w : World) :
  in_group u = true -> is_bot u = false -> db_ok env = true ->
  members_ok env' = true ->
  let w' := run (auto_register_member env u) w in
  let known := In (effective_user_id u)
                 (Dict.keys MEMBERS ++ map fst (members (db w))) in
  (known -> get_member_count env' (db w') = get_member_count env' (db w)) /\
  (~ known -> get_member_count env' (db w') = get_member_count env' (db w) + 1).
Proof.
  intros Hg Hb Hdb Hok w' known.
  assert (Hreg : registers env u = true).
  { unfold registers. rewrite Hg, Hb, Hdb. reflexivity. }
  assert (Hkeys' : forall k,
            In k (Dict.keys (get_all_member_ids env' (db w'))) <->
            k = effective_user_id u \/
            In k (Dict.keys (get_all_member_ids env' (db w)))).
  { intros k. rewrite !(roster_keys env' _ k Hok).
    unfold w'. rewrite (registered_world env u w Hreg). simpl.
    rewrite upsert_is_dict_set.
    pose proof (DictFacts.keys_set (members (db w)) (effective_user_id u)
                  (registered_name u) k) as Hset.
    unfold Dict.keys in Hset. rewrite Hset. tauto. }
  assert (Hknown : known <->
            In (effective_user_id u)
               (Dict.keys (get_all_member_ids env' (db w)))).
  { unfold known. rewrite in_app_iff. symmetry.
    apply (roster_keys env' (db w) _ Hok). }
  unfold get_member_count.
  rewrite <- (length_map fst (get_all_member_ids env' (db w'))).
  rewrite <- (length_map fst (get_all_member_ids env' (db w))).
  split.
  - intros Hk. f_equal. apply same_keys_same_length.
    + apply roster_keys_distinct.
    + apply roster_keys_distinct.
    + intros k. rewrite Hkeys'. split; [|tauto].
      intros [->|H]; [apply Hknown, Hk|exact H].
  - intros Hnew.
    assert (List.length (map fst (get_all_member_ids env' (db w'))) =
            List.length (effective_user_id u
                         :: map fst (get_all_member_ids env' (db w)))) as Hlen.
    { apply same_keys_same_length.
      - apply roster_keys_distinct.
      - constructor; [|apply roster_keys_distinct].
        intros Hin. apply Hnew, Hknown, Hin.
      - intros k. rewrite Hkeys'. simpl. split; intros [H|H]; auto. }
    rewrite Hlen. cbn [List.length]. lia.
Qed.

Lemma registration_changes_count_witness :
  get_member_count env_up
    (db (run (auto_register_member env_up carol_hello) world_posted)) =
  get_member_count env_up (db world_posted) + 1.
Proof.
  pose proof (registration_changes_count env_up env_up carol_hello
                world_posted eq_refl eq_refl eq_refl eq_refl) as [_ Hnew].
  apply Hnew. unfold Dict.keys, MEMBERS. simpl.
  intros H. repeat (destruct H as [H|H]; [discriminate H|]). exact H.
Defined.

(** ** Opening, cancelling and re-entering the deadline conversation *)

Lemma deadline_entry_routing (env : Env) (u : Update) (m : Message) (w : World) :
  payload u = OfMessage m ->
  command m = Some "deadline" ->
  conversation w = None ->
  process_update env u w = in_conversation (deadline_command env u m) w.
Proof.
  intros Hp Hc Hconv. unfold process_update, conversation_handler, is_command.
  rewrite Hp, Hc, Hconv. reflexivity.
Qed.

(** (X7) Outside a conversation, /deadline of an administrator with no
    argument only prints the usage and the conversation stays closed; with
    a title (first word other than status or remind) it stores the words
    joined by single spaces as the scratch title, asks for the file and
    waits for it, leaving the store untouched. *)
Theorem deadline_title_opens_conversation
  (env : Env) (u : Update) (m : Message) (w : World) :
  payload u = OfMessage m ->
  command m = Some "deadline" ->
  conversation w = None ->
  is_admin u = true ->
  let w' := process_update env u w in
  (args m = [] -> w' = said w [ReplyText DeadlineUsage]) /\
  (forall first rest,
     args m = first :: rest ->
     lower first <> "status" -> lower first <> "remind" ->
     w' = mkWorld (db w) (Some (join (first :: rest)))
            (Some WAITING_FOR_FILE) (jobs w)
            (outbox w ++ [ReplyText (CreatingDeadline (join (first :: rest)))])).
Proof.
  intros Hp Hc Hconv Ha w'. unfold w'.
  rewrite (deadline_entry_routing env u m w Hp Hc Hconv).
  unfold in_conversation, deadline_command. rewrite Ha. simpl. split.
  - intros Hargs. rewrite Hargs. simpl. unfold said, set_conversation. simpl.
    rewrite Hconv. reflexivity.
  - intros first rest Hargs Hs Hr. rewrite Hargs.
    apply String.eqb_neq in Hs. apply String.eqb_neq in Hr.
    rewrite Hs, Hr. reflexivity.
Qed.

Lemma deadline_title_opens_conversation_witness :
  process_update env_up (admin_update (OfMessage essay_command)) world_posted =
  mkWorld store_posted (Some "Essay") (Some WAITING_FOR_FILE) []
          [ReplyText (CreatingDeadline "Essay")].
Proof.
  pose proof (deadline_title_opens_conversation env_up
                (admin_update (OfMessage essay_command)) essay_command
                world_posted eq_refl eq_refl eq_refl eq_refl) as [_ H].
  apply (H "Essay" []); [reflexivity|discriminate|discriminate].
Defined.

(** (X8) The words status and remind are reserved whatever their letter
    case: when the first argument of /deadline lower-cases to one of them,
    the request is answered with the report or the reminder (one message)
    and never opens the conversation nor stores a title, also when more
    words follow. *)
Theorem deadline_subcommands_are_reserved
  (env : Env) (u : Update) (m : Message) (w : World)
  (first : string) (rest : list string) :
  payload u = OfMessage m ->
  command m = Some "deadline" ->
  conversation w = None ->
  is_admin u = true ->
  args m = first :: rest ->
  lower first = "status" \/ lower first = "remind" ->
  let w' := process_update env u w in
  (lower first = "status" -> w' = run (deadline_status env) w) /\
  (lower first = "remind" -> w' = run (deadline_remind env) w) /\
  (exists t, w' = said w [ReplyText t]) /\
  conversation w' = None /\ user_data w' = user_data w /\ db w' = db w.
Proof.
  intros Hp Hc Hconv Ha Hargs Hsub w'.
  assert (Hrun : (lower first = "status" -> w' = run (deadline_status env) w) /\
                 (lower first = "remind" -> w' = run (deadline_remind env) w)).
  { unfold w'. rewrite (deadline_entry_routing env u m w Hp Hc Hconv).
    unfold in_conversation, deadline_command. rewrite Ha, Hargs. simpl. split.
    - intros Hs. rewrite Hs. simpl. unfold run, bind, ret.
      destruct (deadline_status env w) as [[[]|e] w1]; simpl;
        [apply set_conversation_same|reflexivity].
    - intros Hr. rewrite Hr. simpl. unfold run, bind, ret.
      destruct (deadline_remind env w) as [[[]|e] w1]; simpl;
        [apply set_conversation_same|reflexivity]. }
  destruct Hrun as [Hs Hr].
  split; [exact Hs|]. split; [exact Hr|].
  assert (Hsaid : exists t, w' = said w [ReplyText t]).
  { destruct Hsub as [H|H].
    - destruct (deadline_status_frame env w) as [t Ht]. exists t.
      rewrite (Hs H). unfold run. rewrite Ht. reflexivity.
    - destruct (deadline_remind_frame env w) as [t Ht]. exists t.
      rewrite (Hr H). unfold run. rewrite Ht. reflexivity. }
  split; [exact Hsaid|].
  destruct Hsaid as [t Ht]. rewrite Ht. simpl.
  split; [exact Hconv|split; reflexivity].
Qed.

Lemma deadline_subcommands_are_reserved_witness :
  process_update env_up (admin_update (OfMessage status_shouted)) world_posted
  = run (deadline_status env_up) world_posted.
Proof.
  pose proof (deadline_subcommands_are_reserved env_up
                (admin_update (OfMessage status_shouted)) status_shouted
                world_posted "STATUS" ["report"]
                eq_refl eq_refl eq_refl eq_refl eq_refl (or_introl eq_refl))
    as [H _].
  apply H. reflexivity.
Defined.





(** ** Posting a deadline *)





(** ** Completion signals *)

(** (X12) A completion signal that names a deadline id with no row in the
    deadlines table records nothing: the insert made on the connection is
    never committed, the world is as before but for the plain answer and
    the error alert, and the pair counts as not completed afterwards. *)
Theorem completion_of_unknown_deadline_is_dropped
  (env : Env) (u : Update) (did : Z) (w : World) :
  payload u = OfCallback (Complete did) ->
  db_ok env = true ->
  Sql.has_completion (db w) did (effective_user_id u) = false ->
  Sql.select_title (db w) did = None ->
  let w' := process_update env u w in
  w' = said w [Answer NoAlert; Answer ErrorRecording] /\
  db w' = db w /\
  Sql.has_completion (db w') did (effective_user_id u) = false.
Proof.
  intros Hp Hdb Hhas Htitle w'.
  assert (Hw : w' = said w [Answer NoAlert; Answer ErrorRecording]).
  { unfold w', process_update. rewrite Hp.
    apply completion_unknown_deadline; assumption. }
  rewrite Hw. simpl. split; [reflexivity|]. split; [reflexivity|exact Hhas].
Qed.

Lemma completion_of_unknown_deadline_is_dropped_witness :
  process_update env_up (member_update 42 "Bob" (OfCallback (Complete 7)))
    world_posted
  = said world_posted [Answer NoAlert; Answer ErrorRecording].
Proof.
  exact (proj1 (completion_of_unknown_deadline_is_dropped env_up
                  (member_update 42 "Bob" (OfCallback (Complete 7))) 7
                  world_posted eq_refl eq_refl eq_refl eq_refl)).
Defined.

Lemma pair_count_recorded_other (st : Store) (did uid d' u' : Z) :
  d' <> did \/ u' <> uid ->
  pair_count (recorded st did uid) d' u' = pair_count st d' u'.
Proof.
  intros Hneq. unfold pair_count, recorded, Sql.same_pair. simpl.
  rewrite filter_app, length_app. simpl.
  assert ((did =? d') && (uid =? u') = false) as Hf.
  { apply andb_false_iff. destruct Hneq as [H|H]; [left|right];
      apply Z.eqb_neq; congruence. }
  rewrite Hf. simpl. lia.
Qed.

(** (X13) A completion signal touches one pair only: whatever happens to
    it, the number of rows of every other (deadline, user) pair, the
    members, the deadlines and the schedules stay as they were, as do the
    scratch title, the conversation and the job queue.  In particular one
    user's completion never counts for another user or another deadline. *)
Theorem completion_touches_one_pair
  (env : Env) (u : Update) (did : Z) (w : World) :
  payload u = OfCallback (Complete did) ->
  let w' := process_update env u w in
  (forall d' u', d' <> did \/ u' <> effective_user_id u ->
     pair_count (db w') d' u' = pair_count (db w) d' u') /\
  members (db w') = members (db w) /\
  deadlines (db w') = deadlines (db w) /\
  schedules (db w') = schedules (db w) /\
  user_data w' = user_data w /\ conversation w' = conversation w /\
  jobs w' = jobs w.
Proof.
  intros Hp w'.
  assert (Hw : w' = run (completion_callback env u did) w).
  { unfold w', process_update. rewrite Hp. reflexivity. }
  destruct (completion_write env u did w) as [_ [Hj [Hc Hud]]].
  rewrite <- Hw in Hj, Hc, Hud.
  destruct (signal_step env u did (effective_user_id u) w (conj eq_refl Hp))
    as [Hsame|[_ Hrec]]; fold w' in Hsame || fold w' in Hrec.
  - rewrite Hsame. repeat split; assumption.
  - rewrite Hrec. simpl.
    split; [intros d' u' Hneq; apply pair_count_recorded_other, Hneq|].
    repeat split; assumption.
Qed.

Lemma completion_touches_one_pair_witness :
  pair_count (db (process_update env_up
                    (member_update 42 "Bob" (OfCallback (Complete 1)))
                    world_posted)) 1 43 = 0%nat.
Proof.
  pose proof (completion_touches_one_pair env_up
                (member_update 42 "Bob" (OfCallback (Complete 1))) 1
                world_posted eq_refl) as [H _].
  rewrite (H 1 43); [reflexivity|right; discriminate].
Defined.

(** ** Completion and reminder together *)

Lemma filter_twice {A} (f g : A -> bool) (l : list A) :
  filter g (filter f l) = filter (fun x => f x && g x) l.
Proof.
  induction l as [|x l IH]; simpl; [reflexivity|].
  destruct (f x); simpl; [|exact IH].
  destruct (g x); simpl; rewrite IH; reflexivity.
Qed.

Lemma stored_deadline_has_title (st : Store) (d : DeadlineRow) :
  In d (deadlines st) ->
  exists ttl, Sql.select_title st (deadline_id d) = Some ttl.
Proof.
  intros Hin. unfold Sql.select_title.
  destruct (find (fun x => deadline_id x =? deadline_id d) (deadlines st))
    as [d0|] eqn:Hfind.
  - exists (title d0). reflexivity.
  - pose proof (find_none _ _ Hfind d Hin) as Hno. simpl in Hno.
    rewrite Z.eqb_refl in Hno. discriminate.
Qed.

Lemma completed_users_recorded (st : Store) (did uid : Z) :
  Sql.completed_users (recorded st did uid) did =
  Sql.completed_users st did ++ [uid].
Proof.
  unfold Sql.completed_users, Sql.rows_of_deadline, recorded. simpl.
  rewrite filter_app, map_app. simpl. rewrite Z.eqb_refl. reflexivity.
Qed.

Lemma pending_after_completion (completed : list Z) (uid : Z)
  (roster : Mentions) :
  filter (is_pending (completed ++ [uid])) roster =
  filter (not_user uid) (filter (is_pending completed) roster).
Proof.
  rewrite filter_twice. apply filter_ext. intros mem.
  unfold is_pending, not_user. rewrite existsb_app. simpl.
  rewrite orb_false_r, negb_orb. reflexivity.
Qed.

(** (X14) Completion and reminder compose: once a user's completion of the
    latest deadline is recorded, the next reminder is the one that would
    have been sent before, with that user's entry taken out of the mention
    list and every other entry kept in place (and it is the
    everyone-completed notice when that user was the last one pending). *)
Theorem completion_removes_from_reminder
  (env env' : Env) (u : Update) (w : World) (d : DeadlineRow) :
  payload u = OfCallback (Complete (deadline_id d)) ->
  Sql.latest_deadline (db w) = Some d ->
  db_ok env = true ->
  Sql.has_completion (db w) (deadline_id d) (effective_user_id u) = false ->
  db_ok env' = true -> db_again_ok env' = true ->
  let w' := process_update env u w in
  let pending :=
    filter (is_pending (Sql.completed_users (db w) (deadline_id d)))
           (get_all_member_ids env' (db w)) in
  run (deadline_remind env') w =
    said w [ReplyText (remind_text d pending)] /\
  run (deadline_remind env') w' =
    said w' [ReplyText
               (remind_text d (filter (not_user (effective_user_id u)) pending))].
Proof.
  intros Hp Hlatest Hdb Hhas Hdb' Hdb2' w' pending.
  split; [apply deadline_remind_run; assumption|].
  assert (Hin : In d (deadlines (db w))).
  { destruct (deadlines (db w)) as [|x rows] eqn:Hrows;
      [unfold Sql.latest_deadline in Hlatest; rewrite Hrows in Hlatest;
       discriminate|].
    unfold Sql.latest_deadline in Hlatest. rewrite Hrows in Hlatest.
    inversion Hlatest; subst d. apply newest_spec. }
  destruct (stored_deadline_has_title (db w) d Hin) as [ttl Httl].
  assert (Hst : db w' = recorded (db w) (deadline_id d) (effective_user_id u)).
  { unfold w', process_update. rewrite Hp.
    rewrite (completion_first env u (deadline_id d) w ttl) by assumption.
    reflexivity. }
  rewrite (deadline_remind_run env' w' d Hdb' Hdb2').
  - rewrite Hst, completed_users_recorded, pending_after_completion.
    reflexivity.
  - rewrite Hst. exact Hlatest.
Qed.

Lemma completion_removes_from_reminder_witness :
  run (deadline_remind env_up)
      (process_update env_up
         (member_update 6931175630 "Chetan" (OfCallback (Complete 2)))
         world_one_done)
  = said (process_update env_up
            (member_update 6931175630 "Chetan" (OfCallback (Complete 2)))
            world_one_done)
      [ReplyText (Reminder "HW2" 6
         [ (8095569186, "Umesh"); (6544711761, "Yashwanth");
           (5477604530, "Karthik"); (6643208192, "Sanjith");
           (5801384729, "Raghunandan"); (103419413, "Pavan") ])].
Proof.
  exact (proj2 (completion_removes_from_reminder env_up env_up
                  (member_update 6931175630 "Chetan" (OfCallback (Complete 2)))
                  world_one_done (mkDeadline 2 "HW2" 78 5 "F2" 950)
                  eq_refl eq_refl eq_refl eq_refl eq_refl eq_refl)).
Defined.

(** (X15) What the reminder says when it cannot remind: with no deadline
    stored it reports that none is posted; when the deadlines table cannot
    be read it reports the same, not an error, whatever the table holds;
    when the latest deadline is read but the completions cannot, it reports
    an error.  In every case the reminder sends one message and changes
    nothing else. *)
Theorem reminder_without_mentions (env : Env) (w : World) :
  (db_ok env = true -> deadlines (db w) = [] ->
   run (deadline_remind env) w = said w [ReplyText NoDeadlines]) /\
  (db_ok env = false ->
   run (deadline_remind env) w = said w [ReplyText NoDeadlines]) /\
  (db_ok env = true -> deadlines (db w) <> [] -> db_again_ok env = false ->
   run (deadline_remind env) w = said w [ReplyText ErrorText]) /\
  (exists t, run (deadline_remind env) w = said w [ReplyText t]).
Proof.
  split; [|split; [|split]].
  - intros Hdb Hnone. unfold deadline_remind, get_latest_deadline,
      Sql.latest_deadline, said. bot_unfold. simpl.
    rewrite Hdb, Hnone. reflexivity.
  - intros Hdb. unfold deadline_remind, get_latest_deadline, said.
    bot_unfold. simpl. rewrite Hdb. reflexivity.
  - intros Hdb Hsome Hdb2.
    destruct (latest_deadline_spec (db w) Hsome) as [d [Hlatest _]].
    unfold deadline_remind, get_latest_deadline, said. bot_unfold. simpl.
    rewrite Hdb, Hlatest, Hdb2. reflexivity.
  - destruct (deadline_remind_frame env w) as [t Ht]. exists t.
    unfold run. rewrite Ht. reflexivity.
Qed.

Lemma reminder_without_mentions_witness :
  run (deadline_remind env_up) initial_world
    = said initial_world [ReplyText NoDeadlines] /\
  run (deadline_remind (mkEnv 1000 (fun _ => None) true false true None
                          true true)) world_one_done
    = said world_one_done [ReplyText NoDeadlines].
Proof.
  split.
  - apply (proj1 (reminder_without_mentions env_up initial_world));
      reflexivity.
  - apply (proj1 (proj2 (reminder_without_mentions
                           (mkEnv 1000 (fun _ => None) true false true None
                              true true) world_one_done))).
    reflexivity.
Defined.

(** ** The status report *)

Lemma insert_desc_perm (d : DeadlineRow) (sorted : list DeadlineRow) :
  Permutation (d :: sorted) (Sql.insert_desc d sorted).
Proof.
  induction sorted as [|x rest IH]; simpl.
  - apply Permutation_refl.
  - destruct (created_at x <? created_at d).
    + apply Permutation_refl.
    + eapply perm_trans; [apply perm_swap|]. apply perm_skip, IH.
Qed.

Lemma insert_desc_sorted (d : DeadlineRow) (sorted : list DeadlineRow) :
  newest_first sorted -> newest_first (Sql.insert_desc d sorted).
Proof.
  induction sorted as [|x rest IH]; simpl.
  - intros _. split; [intros y []|exact I].
  - intros [Hx Hrest].
    destruct (created_at x <? created_at d) eqn:Hlt; simpl.
    + apply Z.ltb_lt in Hlt. split; [|split; assumption].
      intros y [<-|Hy]; [lia|]. specialize (Hx y Hy). lia.
    + apply Z.ltb_ge in Hlt. split; [|apply IH, Hrest].
      intros y Hy.
      apply (Permutation_in y (Permutation_sym (insert_desc_perm d rest))) in Hy.
      destruct Hy as [<-|Hy]; [exact Hlt|apply Hx, Hy].
Qed.

Lemma order_by_spec (rows : list DeadlineRow) : forall acc,
  newest_first acc ->
  Permutation (rows ++ acc)
    (fold_left (fun a d => Sql.insert_desc d a) rows acc) /\
  newest_first (fold_left (fun a d => Sql.insert_desc d a) rows acc).
Proof.
  induction rows as [|d rows IH]; intros acc Hacc; simpl.
  - split; [apply Permutation_refl|exact Hacc].
  - destruct (IH (Sql.insert_desc d acc) (insert_desc_sorted d acc Hacc))
      as [Hperm Hsorted].
    split; [|exact Hsorted].
    eapply perm_trans; [|exact Hperm].
    eapply perm_trans; [apply Permutation_middle|].
    apply Permutation_app_head, insert_desc_perm.
Qed.

Lemma order_by_created_desc_spec (rows : list DeadlineRow) :
  Permutation rows (Sql.order_by_created_desc rows) /\
  newest_first (Sql.order_by_created_desc rows).
Proof.
  unfold Sql.order_by_created_desc.
  destruct (order_by_spec rows [] I) as [Hperm Hsorted].
  rewrite app_nil_r in Hperm. split; assumption.
Qed.

(** (X16) /deadline status, with the store reachable, answers with one
    line per stored deadline, each deadline exactly once, ordered by
    creation time with the newest first; a line gives the title, the number
    of completion rows of that deadline and, as pending, the member count
    minus that number.  With no deadline stored it says so; when the store
    cannot be opened it reports an error. *)
Theorem status_report (env : Env) (w : World) :
  (db_ok env = false ->
   run (deadline_status env) w = said w [ReplyText ErrorText]) /\
  (db_ok env = true -> deadlines (db w) = [] ->
   run (deadline_status env) w = said w [ReplyText NoDeadlines]) /\
  (db_ok env = true -> deadlines (db w) <> [] ->
   exists sorted,
     Permutation (deadlines (db w)) sorted /\
     newest_first sorted /\
     run (deadline_status env) w =
       said w [ReplyText (DeadlineStatus (map (status_line env (db w)) sorted))]).
Proof.
  split; [|split].
  - intros Hdb. unfold deadline_status, said. bot_unfold. simpl.
    rewrite Hdb. reflexivity.
  - intros Hdb Hnone. unfold deadline_status, said, Sql.status_rows.
    bot_unfold. simpl. rewrite Hdb, Hnone. reflexivity.
  - intros Hdb Hsome.
    destruct (order_by_created_desc_spec (deadlines (db w))) as [Hperm Hsorted].
    exists (Sql.order_by_created_desc (deadlines (db w))).
    split; [exact Hperm|]. split; [exact Hsorted|].
    unfold deadline_status, said, Sql.status_rows. bot_unfold. simpl.
    rewrite Hdb. simpl.
    destruct (Sql.order_by_created_desc (deadlines (db w))) as [|d rest] eqn:Ho.
    + apply Permutation_sym, Permutation_nil in Hperm. contradiction.
    + simpl. rewrite map_map. reflexivity.
Qed.

Lemma status_report_witness :
  exists sorted,
    Permutation (deadlines store_one_done) sorted /\
    newest_first sorted /\
    run (deadline_status env_up) world_one_done =
    said world_one_done
      [ReplyText (DeadlineStatus
                    (map (status_line env_up store_one_done) sorted))].
Proof.
  apply (proj2 (proj2 (status_report env_up world_one_done))).
  - reflexivity.
  - discriminate.
Defined.

(** ** Scheduling: validation, atomicity, delivery *)



Lemma delete_fresh_schedule (rows : list ScheduleRow) (seq : Z)
  (row : ScheduleRow) :
  Forall (fun s => schedule_id s <= seq) rows ->
  schedule_id row = seq + 1 ->
  filter (other_schedule (seq + 1)) (rows ++ [row]) = rows.
Proof.
  intros Hle Hrow. rewrite filter_app. simpl.
  unfold other_schedule at 2. rewrite Hrow, Z.eqb_refl. simpl.
  rewrite app_nil_r.
  induction Hle as [|s rows Hs _ IH]; simpl; [reflexivity|].
  unfold other_schedule at 1.
  destruct (schedule_id s =? seq + 1) eqn:Heq; simpl.
  - apply Z.eqb_eq in Heq. lia.
  - rewrite IH. reflexivity.
Qed.

(** (X18) Scheduling and delivery undo each other on the schedules table:
    when every stored schedule id is at most the AUTOINCREMENT counter, a
    confirmed request followed by the successful run of its job leaves the
    table exactly as it was before the request, while the counter has moved
    on, so the id is not handed out again. *)
Theorem schedule_then_delivery_restores_table
  (env env2 : Env) (u : Update) (m : Message) (w : World)
  (date_str time_str word : string) (words : list string) (ts mid : Z) :
  is_admin u = true ->
  args m = date_str :: time_str :: word :: words ->
  strptime env (date_str ++ " " ++ time_str)%string = Some ts ->
  now env < ts -> db_ok env = true ->
  Forall (fun s => schedule_id s <= schedule_seq (db w)) (schedules (db w)) ->
  send_result env2 = Some mid -> db_ok env2 = true ->
  let w1 := run (schedule_command env u m) w in
  let job := mkJob ts (schedule_seq (db w) + 1) (join (word :: words))
               (effective_chat_id u) in
  let w2 := run (fire env2 job) w1 in
  In job (jobs w1) /\
  schedules (db w2) = schedules (db w) /\
  schedule_seq (db w2) = schedule_seq (db w) + 1 /\
  outbox w2 =
    outbox w ++ [ReplyText (ReminderScheduled date_str time_str
                              (join (word :: words)));
                 SendMessage (effective_chat_id u)
                   (ScheduledReminder (join (word :: words))
                      (get_all_member_ids env2 (db w)))].
Proof.
  intros Ha Hargs Hparse Hlt Hdb Hle Hsend Hdb2 w1 job w2.
  assert (Hw1 : w1 = scheduled u date_str time_str (join (word :: words)) ts w).
  { unfold w1. apply (schedule_future env u m w date_str time_str word words ts);
      assumption. }
  split; [rewrite Hw1; simpl; apply in_or_app; right; left; reflexivity|].
  unfold w2. rewrite (fire_delivered env2 job w1 mid Hsend Hdb2).
  rewrite Hw1. simpl.
  split; [|split; [reflexivity|]].
  - apply (delete_fresh_schedule (schedules (db w)) (schedule_seq (db w))
             (mkSchedule (schedule_seq (db w) + 1) ts (join (word :: words)))
             Hle eq_refl).
  - rewrite <- app_assoc. reflexivity.
Qed.

Lemma schedule_then_delivery_restores_table_witness :
  schedules (db (run (fire env_late (mkJob 2000 1 "Class today" 5))
                     world_scheduled)) = schedules (db initial_world).
Proof.
  exact (proj1 (proj2 (schedule_then_delivery_restores_table env_up env_late
           admin_schedule schedule_message initial_world
           "2026-02-15" "09:00" "Class" ["today"] 2000 77
           eq_refl eq_refl eq_refl eq_refl eq_refl (Forall_nil _)
           eq_refl eq_refl))).
Defined.

(** (X19) The row is deleted only after the send: when the scheduled
    message is delivered but the store cannot be opened for the delete, the
    message has gone out to the whole resolved roster, the row is still
    stored, and the job has left the queue, so nothing will delete the row
    later. *)
Theorem delivered_but_not_deleted (env : Env) (j : Job) (w : World) (mid : Z) :
  send_result env = Some mid -> db_ok env = false ->
  let w' := run (fire env j) w in
  db w' = db w /\
  outbox w' = outbox w ++ [SendMessage (job_chat_id j)
                             (ScheduledReminder (job_message j)
                                (get_all_member_ids env (db w)))] /\
  ~ In (job_schedule_id j) (map job_schedule_id (jobs w')) /\
  (forall row, In row (schedules (db w)) -> In row (schedules (db w'))).
Proof.
  intros Hsend Hdb w'.
  assert (Hw : w' = mkWorld (db w) (user_data w) (conversation w)
                      (filter (other_job j) (jobs w))
                      (outbox w ++ [SendMessage (job_chat_id j)
                                      (ScheduledReminder (job_message j)
                                         (get_all_member_ids env (db w)))])).
  { unfold w', fire, send_scheduled_message. bot_unfold. simpl.
    rewrite Hsend. simpl. rewrite Hdb. reflexivity. }
  rewrite Hw. simpl. split; [reflexivity|]. split; [reflexivity|].
  split; [|auto].
  intros Hin. apply in_map_iff in Hin. destruct Hin as [k [Hid Hin]].
  apply filter_In in Hin. destruct Hin as [_ Hother].
  unfold other_job in Hother. rewrite Hid, Z.eqb_refl in Hother. discriminate.
Qed.

Lemma delivered_but_not_deleted_witness :
  schedules (db (run (fire env_delete_fails (mkJob 2000 1 "Class today" 5))
                     world_scheduled))
  = [mkSchedule 1 2000 "Class today"].
Proof.
  pose proof (delivered_but_not_deleted env_delete_fails
                (mkJob 2000 1 "Class today" 5) world_scheduled 91
                eq_refl eq_refl) as [Hdb _].
  exact (eq_trans (f_equal schedules Hdb) eq_refl).
Defined.

(** ** Restart *)

Lemma startup_world (env : Env) (file : option Store) :
  fst (startup env file) = mkWorld (init_database file) None None [] [].
Proof.
  unfold startup, restore_scheduled_jobs. bot_unfold. simpl.
  destruct (db_ok env); simpl; [|reflexivity].
  destruct (filter _ (schedules (init_database file))); reflexivity.
Qed.

Lemma startup_log (env : Env) (st : Store) (row : ScheduleRow) :
  db_ok env = true -> In row (schedules st) -> now env < run_time row ->
  In (JobSkipped (message row)) (snd (startup env (Some st))).
Proof.
  intros Hdb Hin Hlt. unfold startup, restore_scheduled_jobs. bot_unfold.
  simpl. rewrite Hdb. simpl.
  assert (In row (filter (fun s => now env <? run_time s) (schedules st)))
    as Hf.
  { apply filter_In. split; [exact Hin|]. apply Z.ltb_lt, Hlt. }
  destruct (filter (fun s => now env <? run_time s) (schedules st))
    as [|s rows] eqn:Hrows; [destruct Hf|].
  simpl. destruct Hf as [->|Hf]; [left; reflexivity|right].
  apply in_or_app. left.
  apply (in_map (fun s => JobSkipped (message s)) rows row Hf).
Qed.

Lemma write_seq_mono (st st' : Store) :
  store_write st st' -> schedule_seq st <= schedule_seq st'.
Proof. intros Hw. destruct Hw; simpl; lia. Qed.

Lemma process_update_jobs (env : Env) (u : Update) (w : World) :
  jobs (process_update env u w) = jobs w \/
  exists t msg chat,
    jobs (process_update env u w) =
    jobs w ++ [mkJob t (schedule_seq (db w) + 1) msg chat].
Proof.
  unfold process_update.
  destruct (payload u) as [m|[did|]].
  - destruct (is_command m "start"); [left; reflexivity|].
    destruct (is_command m "help"); [left; reflexivity|].
    destruct (mention_frame env u m w) as [acts Hm].
    destruct (is_command m "mention"); [left; rewrite Hm; reflexivity|].
    destruct (is_command m "tagall"); [left; rewrite Hm; reflexivity|].
    destruct (is_command m "status");
      [left; rewrite status_command_run; reflexivity|].
    destruct (is_command m "schedule").
    + unfold run.
      destruct (schedule_cases env u m w)
        as [[t [_ Ht]]|[d [tm [wd [ws [ts [_ [_ [_ [_ [_ Ht]]]]]]]]]]];
        rewrite Ht; simpl; [left; reflexivity|].
      right. do 3 eexists. reflexivity.
    + destruct (conversation_handler env u m (conversation w)) as [h|] eqn:Hh.
      * left. apply (conversation_write env u m w h Hh).
      * left. unfold run. rewrite auto_register_cases. simpl.
        destruct (registers env u); reflexivity.
  - left. apply completion_write.
  - left. reflexivity.
Qed.

Lemma jobs_are_fresh (s0 : Z) (events : list (Env * Update)) : forall w,
  s0 <= schedule_seq (db w) ->
  Forall (fun j => s0 < job_schedule_id j) (jobs w) ->
  Forall (fun j => s0 < job_schedule_id j) (jobs (process_all events w)).
Proof.
  unfold process_all.
  induction events as [|[e u] events IH]; intros w Hseq Hjobs; simpl.
  - exact Hjobs.
  - apply IH.
    + pose proof (write_seq_mono _ _ (process_update_write e u w)). simpl. lia.
    + simpl.
      destruct (process_update_jobs e u w) as [H|[t [msg [chat H]]]];
        rewrite H; [exact Hjobs|].
      apply Forall_app. split; [exact Hjobs|].
      constructor; [simpl; lia|constructor].
Qed.

(** (X20) A restart forgets the job queue and nothing brings it back:
    starting on an existing database keeps every row, opens no
    conversation and queues no job; for each schedule row due after the
    clock a warning is logged.  Whatever updates are handled afterwards, a
    schedule row that was stored before the restart stays in the store and
    no job of the queue carries its id, so its message is never sent. *)
Theorem restart_orphans_pending_schedules
  (env : Env) (st : Store) (events : list (Env * Update)) (row : ScheduleRow) :
  Forall (fun s => schedule_id s <= schedule_seq st) (schedules st) ->
  In row (schedules st) ->
  let w0 := fst (startup env (Some st)) in
  let w := process_all events w0 in
  db w0 = st /\ jobs w0 = [] /\ conversation w0 = None /\
  In row (schedules (db w)) /\
  ~ In (schedule_id row) (map job_schedule_id (jobs w)) /\
  (db_ok env = true -> now env < run_time row ->
   In (JobSkipped (message row)) (snd (startup env (Some st)))).
Proof.
  intros Hle Hin w0 w.
  assert (Hw0 : w0 = mkWorld st None None [] []).
  { unfold w0. rewrite startup_world. reflexivity. }
  split; [rewrite Hw0; reflexivity|]. split; [rewrite Hw0; reflexivity|].
  split; [rewrite Hw0; reflexivity|]. split; [|split].
  - destruct (process_all_grows events w0) as [_ [_ [_ [more Hmore]]]].
    fold w in Hmore. rewrite Hmore. apply in_or_app. left.
    rewrite Hw0. exact Hin.
  - intros Hjob. apply in_map_iff in Hjob. destruct Hjob as [j [Hid Hj]].
    assert (Hfresh : Forall (fun j => schedule_seq st < job_schedule_id j)
                            (jobs w)).
    { unfold w. apply jobs_are_fresh; rewrite Hw0; simpl;
        [lia|constructor]. }
    rewrite Forall_forall in Hfresh, Hle.
    specialize (Hfresh j Hj). specialize (Hle row Hin). lia.
  - intros Hdb Hlt. apply startup_log; assumption.
Qed.

Lemma restart_orphans_pending_schedules_witness :
  In (mkSchedule 1 2000 "Class today")
     (schedules (db (process_all busy_day
                       (fst (startup env_up (Some (db world_scheduled))))))) /\
  In (JobSkipped "Class today") (snd (startup env_up (Some (db world_scheduled)))).
Proof.
  assert (Hle : Forall (fun s => schedule_id s <= schedule_seq (db world_scheduled))
                       (schedules (db world_scheduled))).
  { simpl. repeat constructor. simpl. lia. }
  pose proof (restart_orphans_pending_schedules env_up (db world_scheduled)
                busy_day (mkSchedule 1 2000 "Class today") Hle
                (or_introl eq_refl)) as [_ [_ [_ [Hrow [_ Hlog]]]]].
  split; [exact Hrow|]. apply Hlog; reflexivity.
Defined.

(** ** What is never sent *)

Lemma no_retry_one (t : Text) : t <> RetryFile -> no_retry [ReplyText t].
Proof. intros Ht [H|[]]. inversion H. contradiction. Qed.

Lemma deadline_status_text (env : Env) (w : World) :
  exists t, t <> RetryFile /\
            deadline_status env w = (Ok tt, said w [ReplyText t]).
Proof.
  unfold deadline_status, said. bot_unfold.
  destruct (db_ok env); simpl.
  - destruct (Sql.status_rows (db w)); simpl;
      eexists; (split; [|reflexivity]); discriminate.
  - eexists; (split; [|reflexivity]); discriminate.
Qed.

Lemma deadline_remind_text (env : Env) (w : World) :
  exists t, t <> RetryFile /\
            deadline_remind env w = (Ok tt, said w [ReplyText t]).
Proof.
  unfold deadline_remind, said. bot_unfold. simpl.
  destruct (get_latest_deadline env (db w)); simpl.
  - destruct (db_again_ok env); simpl.
    + match goal with |- context [if ?c then _ else _] => destruct c end;
        eexists; (split; [|reflexivity]); discriminate.
    + eexists; (split; [|reflexivity]); discriminate.
  - eexists; (split; [|reflexivity]); discriminate.
Qed.

Lemma deadline_command_outbox (env : Env) (u : Update) (m : Message)
  (w : World) :
  exists t, t <> RetryFile /\
    outbox (snd (deadline_command env u m w)) = outbox w ++ [ReplyText t].
Proof.
  unfold deadline_command.
  destruct (is_admin u); simpl;
    [|eexists; (split; [|reflexivity]); discriminate].
  destruct (args m) as [|first rest];
    [eexists; (split; [|reflexivity]); discriminate|].
  destruct (String.eqb (lower first) "status").
  - destruct (deadline_status_text env w) as [t [Hne Ht]]. exists t.
    split; [exact Hne|]. unfold bind, ret. rewrite Ht. reflexivity.
  - destruct (String.eqb (lower first) "remind").
    + destruct (deadline_remind_text env w) as [t [Hne Ht]]. exists t.
      split; [exact Hne|]. unfold bind, ret. rewrite Ht. reflexivity.
    + eexists; (split; [|reflexivity]); discriminate.
Qed.

Lemma receive_outbox (env : Env) (u : Update) (m : Message) (w : World) :
  file_filter m = true ->
  exists acts, no_retry acts /\
    outbox (snd (deadline_receive_file env u m w)) = outbox w ++ acts.
Proof.
  intros Hfilter. apply file_filter_attached in Hfilter.
  destruct (attached_file m) as [[kind fid]|] eqn:Hfile; [|contradiction].
  destruct (db_ok env) eqn:Hdb.
  - destruct (send_result env) as [mid|] eqn:Hsend.
    + destruct (db_again_ok env) eqn:Hdb2.
      * rewrite (receive_posted env u m w kind fid mid) by assumption.
        eexists. split; [|reflexivity].
        intros [H|[H|[]]]; discriminate.
      * rewrite (receive_patch_fails env u m w kind fid mid) by assumption.
        eexists. split; [|reflexivity].
        intros [H|[H|[]]]; discriminate.
    + rewrite (receive_send_fails env u m w kind fid) by assumption.
      eexists. split; [|reflexivity]. apply no_retry_one. discriminate.
  - rewrite (receive_store_down env u m w kind fid) by assumption.
    eexists. split; [|reflexivity]. apply no_retry_one. discriminate.
Qed.

Lemma in_conversation_outbox (h : Bot (option Z)) (w : World) :
  outbox (in_conversation h w) = outbox (snd (h w)).
Proof.
  unfold in_conversation. destruct (h w) as [[ns|e] w1]; reflexivity.
Qed.

Lemma completion_outbox (env : Env) (u : Update) (did : Z) (w : World) :
  exists acts, no_retry acts /\
    outbox (run (completion_callback env u did) w) = outbox w ++ acts.
Proof.
  destruct (db_ok env) eqn:Hdb.
  - destruct (Sql.has_completion (db w) did (effective_user_id u)) eqn:Hhas.
    + rewrite completion_repeated by assumption.
      eexists. split; [|reflexivity]. intros [H|[H|[]]]; discriminate.
    + destruct (Sql.select_title (db w) did) as [ttl|] eqn:Htitle.
      * rewrite (completion_first env u did w ttl) by assumption.
        eexists. split; [|reflexivity]. unfold caption_edit.
        destruct (edit_ok env); simpl;
          intros H; repeat (destruct H as [H|H]; [discriminate H|]); exact H.
      * rewrite completion_unknown_deadline by assumption.
        eexists. split; [|reflexivity]. intros [H|[H|[]]]; discriminate.
  - rewrite completion_store_down by assumption.
    eexists. split; [|reflexivity]. intros [H|[H|[]]]; discriminate.
Qed.

Lemma mention_outbox (env : Env) (u : Update) (m : Message) (w : World) :
  exists acts, no_retry acts /\ acts <> [] /\
    run (mention_command env u m) w = said w acts.
Proof.
  destruct (in_group u) eqn:Hg; [destruct (is_admin u) eqn:Ha|].
  - rewrite mention_command_run by assumption.
    eexists. split; [|split; [|reflexivity]]; [|discriminate].
    intros [H|H].
    + unfold mention_reply in H. destruct (args m); [discriminate|].
      destruct (join (s :: l)); discriminate.
    + unfold after_delete in H. destruct (delete_ok env);
        [destruct H as [H|[]]; discriminate|destruct H].
  - destruct (mention_rejections env u m w (or_intror Ha)) as [t [Ht H]].
    eexists. split; [|split; [|exact H]]; [|discriminate].
    apply no_retry_one. destruct Ht as [-> | ->]; discriminate.
  - destruct (mention_rejections env u m w (or_introl Hg)) as [t [Ht H]].
    eexists. split; [|split; [|exact H]]; [|discriminate].
    apply no_retry_one. destruct Ht as [-> | ->]; discriminate.
Qed.

Lemma process_update_outbox (env : Env) (u : Update) (w : World) :
  exists acts, no_retry acts /\
    outbox (process_update env u w) = outbox w ++ acts.
Proof.
  unfold process_update.
  destruct (payload u) as [m|[did|]].
  - destruct (is_command m "start");
      [eexists; split; [|reflexivity]; apply no_retry_one; discriminate|].
    destruct (is_command m "help");
      [eexists; split; [|reflexivity]; apply no_retry_one; discriminate|].
    destruct (mention_outbox env u m w) as [macts [Hmno [_ Hm]]].
    destruct (is_command m "mention");
      [exists macts; split; [exact Hmno|rewrite Hm; reflexivity]|].
    destruct (is_command m "tagall");
      [exists macts; split; [exact Hmno|rewrite Hm; reflexivity]|].
    destruct (is_command m "status").
    { rewrite status_command_run. eexists. split; [|reflexivity].
      apply no_retry_one. destruct (is_admin u); discriminate. }
    destruct (is_command m "schedule").
    { unfold run.
      destruct (schedule_cases env u m w)
        as [[t [Hr Ht]]|[d [tm [wd [ws [ts [_ [_ [_ [_ [_ Ht]]]]]]]]]]];
        rewrite Ht; simpl; eexists; (split; [|reflexivity]);
        apply no_retry_one; [|discriminate].
      unfold schedule_refusal in Hr.
      destruct Hr as [->|[->|[->|[->| ->]]]]; discriminate. }
    unfold conversation_handler.
    destruct (conversation w) as [s|].
    + destruct ((s =? WAITING_FOR_FILE) && file_filter m) eqn:Hfile.
      * apply andb_true_iff in Hfile. destruct Hfile as [_ Hfile].
        rewrite in_conversation_outbox.
        apply receive_outbox, Hfile.
      * destruct (is_command m "cancel").
        -- eexists. split; [|reflexivity]. apply no_retry_one. discriminate.
        -- exists []. split; [intros []|]. rewrite app_nil_r.
           apply (auto_register_frame env u w).
    + destruct (is_command m "deadline").
      * rewrite in_conversation_outbox.
        destruct (deadline_command_outbox env u m w) as [t [Hne Ht]].
        exists [ReplyText t]. split; [apply no_retry_one, Hne|exact Ht].
      * exists []. split; [intros []|]. rewrite app_nil_r.
        apply (auto_register_frame env u w).
  - apply completion_outbox.
  - exists []. split; [intros []|]. rewrite app_nil_r. reflexivity.
Qed.

(** (X21) As the handlers are registered, the retry prompt of the file
    handler is never sent: whatever updates arrive in whatever
    environments, no retry prompt is added to what the bot has sent. *)
Theorem retry_prompt_is_never_sent (events : list (Env * Update)) (w : World) :
  ~ In (ReplyText RetryFile) (outbox w) ->
  ~ In (ReplyText RetryFile) (outbox (process_all events w)).
Proof.
  revert w. unfold process_all.
  induction events as [|[e u] events IH]; intros w Hw; simpl.
  - exact Hw.
  - apply IH. simpl.
    destruct (process_update_outbox e u w) as [acts [Hno Hout]].
    rewrite Hout. intros Hin. apply in_app_or in Hin.
    destruct Hin as [Hin|Hin]; [exact (Hw Hin)|exact (Hno Hin)].
Qed.

Lemma retry_prompt_is_never_sent_witness :
  ~ In (ReplyText RetryFile)
       (outbox (process_all
                  [ (env_up, admin_update (OfMessage essay_command));
                    (env_up, admin_update (OfMessage text_message)) ]
                  initial_world)).
Proof.
  apply (retry_prompt_is_never_sent
           [ (env_up, admin_update (OfMessage essay_command));
             (env_up, admin_update (OfMessage text_message)) ]
           initial_world).
  simpl. intros [].
Defined.

(** ** Privilege across the command surface *)

(** (X22) /status, /schedule and, in a group, /mention and /tagall are for
    administrators and the creator only: anyone else, and anyone whose
    status cannot be looked up, gets the admins-only text of the command
    (for /tagall the text names /mention) and nothing else changes, whether
    or not a deadline conversation is open.  Outside a group /mention is
    refused with the groups-only text before the privilege is looked at. *)
Theorem admin_commands_refuse_others
  (env : Env) (u : Update) (m : Message) (w : World) :
  payload u = OfMessage m ->
  let w' := process_update env u w in
  (is_admin u = false -> command m = Some "status" ->
   w' = said w [ReplyText (OnlyAdmins "/status")]) /\
  (is_admin u = false -> command m = Some "schedule" ->
   w' = said w [ReplyText (OnlyAdmins "/schedule")]) /\
  (is_admin u = false -> in_group u = true ->
   command m = Some "mention" \/ command m = Some "tagall" ->
   w' = said w [ReplyText (OnlyAdmins "/mention")]) /\
  (in_group u = false ->
   command m = Some "mention" \/ command m = Some "tagall" ->
   w' = said w [ReplyText OnlyInGroups]).
Proof.
  intros Hp w'. unfold w', process_update. rewrite Hp. unfold is_command.
  split; [|split; [|split]].
  - intros Ha Hc. rewrite Hc. simpl. rewrite status_command_run, Ha.
    reflexivity.
  - intros Ha Hc. rewrite Hc. simpl. apply schedule_not_admin, Ha.
  - intros Ha Hg [Hc|Hc]; rewrite Hc; simpl;
      unfold mention_command; rewrite Hg, Ha; reflexivity.
  - intros Hg [Hc|Hc]; rewrite Hc; simpl;
      unfold mention_command; rewrite Hg; reflexivity.
Qed.

Lemma admin_commands_refuse_others_witness :
  process_update env_up (outsider (OfMessage status_anywhere)) awaiting_world
    = said awaiting_world [ReplyText (OnlyAdmins "/status")] /\
  process_update env_up (outsider (OfMessage mention_message)) world_posted
    = said world_posted [ReplyText (OnlyAdmins "/mention")].
Proof.
  split.
  - apply (proj1 (admin_commands_refuse_others env_up
             (outsider (OfMessage status_anywhere)) status_anywhere
             awaiting_world eq_refl)); reflexivity.
  - apply (proj1 (proj2 (proj2 (admin_commands_refuse_others env_up
             (outsider (OfMessage mention_message)) mention_message
             world_posted eq_refl)))); [reflexivity|reflexivity|].
    left. reflexivity.
Defined.

(** ** The two pending counts *)

Lemma filter_split_length {A} (f : A -> bool) (l : list A) :
  (List.length (filter f l) + List.length (filter (fun x => negb (f x)) l)
   = List.length l)%nat.
Proof.
  induction l as [|x l IH]; simpl; [reflexivity|].
  destruct (f x); simpl; lia.
Qed.

Lemma NoDup_keys_filter (f : Z * string -> bool) (roster : Mentions) :
  NoDup (map fst roster) -> NoDup (map fst (filter f roster)).
Proof.
  induction roster as [|x roster IH]; simpl; intros Hnd; [constructor|].
  inversion Hnd as [|k l Hnotin Hnd']; subst.
  destruct (f x); simpl; [|auto].
  constructor; [|auto].
  intros Hin. apply Hnotin. apply in_map_iff in Hin.
  destruct Hin as [y [Hy Hin]]. apply filter_In in Hin.
  apply in_map_iff. exists y. tauto.
Qed.

Lemma pending_count_exact (roster : Mentions) (completed : list Z) :
  NoDup (map fst roster) -> NoDup completed ->
  (forall uid, In uid completed -> In uid (map fst roster)) ->
  (List.length (filter (is_pending completed) roster) + List.length completed
   = List.length roster)%nat.
Proof.
  intros Hr Hc Hsub.
  pose proof (filter_split_length
                (fun mem => existsb (Z.eqb (fst mem)) completed) roster) as Hsplit.
  rewrite (filter_ext
             (fun x => negb (existsb (Z.eqb (fst x)) completed))
             (is_pending completed) (fun x => eq_refl)) in Hsplit.
  assert (List.length
            (filter (fun mem => existsb (Z.eqb (fst mem)) completed) roster)
          = List.length completed) as Hdone.
  { rewrite <- (length_map fst). apply same_keys_same_length.
    - apply NoDup_keys_filter, Hr.
    - exact Hc.
    - intros k. split.
      + intros Hin. apply in_map_iff in Hin. destruct Hin as [y [Hy Hin]].
        apply filter_In in Hin. destruct Hin as [_ Hex].
        apply existsb_exists in Hex. destruct Hex as [z [Hz Heq]].
        apply Z.eqb_eq in Heq. congruence.
      + intros Hin. specialize (Hsub k Hin). apply in_map_iff in Hsub.
        destruct Hsub as [y [Hy Hy']]. apply in_map_iff. exists y.
        split; [exact Hy|]. apply filter_In. split; [exact Hy'|].
        apply existsb_exists. exists k. split; [exact Hin|].
        rewrite Hy. apply Z.eqb_refl. }
  lia.
Qed.

(** (X23) The pending number of the status report and the reminder agree
    exactly when they should: for a deadline whose completers are all in
    the resolved roster (and one row per pair in the completions table),
    member count minus completion count, which the status report prints as
    pending, is the number of users the reminder mentions.  (A completion
    by a user outside the roster lowers the first number only.) *)
Theorem pending_counts_agree (env : Env) (st : Store) (did : Z) :
  NoDup (completions st) ->
  (forall uid, In (did, uid) (completions st) ->
               In uid (Dict.keys (get_all_member_ids env st))) ->
  get_member_count env st - Sql.count_completions st did =
  Z.of_nat (List.length
              (filter (is_pending (Sql.completed_users st did))
                      (get_all_member_ids env st))).
Proof.
  intros Hnd Hsub.
  pose proof (pending_count_exact (get_all_member_ids env st)
                (Sql.completed_users st did)
                (roster_keys_distinct env st)
                (distinct_users (completions st) did Hnd)) as Hcount.
  assert (forall uid, In uid (Sql.completed_users st did) ->
                      In uid (map fst (get_all_member_ids env st))) as Hin.
  { intros uid Hu. apply Hsub.
    apply completed_users_spec. apply existsb_exists.
    exists uid. split; [exact Hu|apply Z.eqb_refl]. }
  specialize (Hcount Hin).
  unfold get_member_count, Sql.count_completions.
  unfold Sql.completed_users in Hcount. rewrite length_map in Hcount.
  fold (Sql.completed_users st did) in Hcount. lia.
Qed.

Lemma pending_counts_agree_witness :
  get_member_count env_up store_one_done
    - Sql.count_completions store_one_done 2 = 7.
Proof.
  assert (Hnd : NoDup (completions store_one_done)).
  { simpl. constructor; [intros [H|[]]; discriminate H|].
    constructor; [intros []|constructor]. }
  rewrite (pending_counts_agree env_up store_one_done 2 Hnd).
  - reflexivity.
  - intros uid [H|[H|[]]]; inversion H; subst.
    unfold Dict.keys. simpl. left. reflexivity.
Defined.
